(** * apns-send: the APNs push client and its HTTP/2 connection wrapper

    A shallow embedding of [src/apns/apns.ts] (class [ApnsClient]) and of the
    HTTP/2 wrapper it extends (class [Http2Wrapper]), followed by the
    properties of the two that the specification states.

    Conventions of the embedding.
    - JavaScript numbers that the code handles are integers (milliseconds of
      [Date.now()], epoch seconds, priorities, timeouts): they are [Z].
    - JavaScript strings are [string]; the only characters the code inspects
      are ['/'] and ['.'], both ASCII.
    - A JavaScript object used as a header set is an association list kept
      in property order ([Js.obj_set] updates in place or appends).
    - A method that reads or writes [this] is a function of the state; a
      [throw] is the [Throw] result of the small monad [M], and changes made
      before the throw stay.
    - A promise is modelled by the way it ends ([Outcome]): fulfilled,
      rejected, or never settled.
    - What lives outside the repository (the clock, [jsonwebtoken]'s [sign],
      [JSON], [Buffer], the status-text helper, the server's answers) is a
      field of the record [Runtime]; every theorem holds for all runtimes. *)

From Stdlib Require Import ZArith String Ascii List Bool Lia DecimalString.
Import ListNotations.
Open Scope list_scope.
Open Scope string_scope.
Open Scope Z_scope.

(* ================================================================= *)
(** ** JavaScript values used by the client *)

Module Js.

(** [Number.prototype.toString()] and a template literal [`${n}`] on an
    integer: its decimal numeral. *)
Definition Number_toString (n : Z) : string :=
  NilZero.string_of_int (Z.to_int n).

(** [n.toFixed(0)] on an integer. *)
Definition toFixed0 (n : Z) : string := Number_toString n.

(** [(n / d).toFixed(0)] for integers [n] and [d > 0]: the quotient rounded
    to the nearest integer, a tie going away from zero; a negative quotient
    keeps its sign even when it rounds to zero. *)
Definition div_toFixed0 (n d : Z) : string :=
  if n <? 0
  then "-" ++ Number_toString ((2 * (- n) + d) / (2 * d))
  else Number_toString ((2 * n + d) / (2 * d)).

(** [Math.floor(n / d)] for integers, [d > 0]. *)
Definition Math_floor_div (n d : Z) : Z := n / d.

(** Truthiness of a string and of a number. *)
Definition truthy_string (s : string) : bool := negb (s =? "")%string.
Definition truthy_number (n : Z) : bool := negb (n =? 0).

(** [a ?? b] *)
Definition nullish {A} (a : option A) (b : A) : A :=
  match a with Some x => x | None => b end.

(** Objects as ordered property lists. *)
Definition object (V : Type) : Type := list (string * V).

Fixpoint obj_get {V} (k : string) (o : object V) : option V :=
  match o with
  | [] => None
  | (k', v) :: rest => if (k' =? k)%string then Some v else obj_get k rest
  end.

(** [o[k] = v]: an own property keeps its place, a new one goes last. *)
Fixpoint obj_set {V} (k : string) (v : V) (o : object V) : object V :=
  match o with
  | [] => [(k, v)]
  | (k', v') :: rest =>
      if (k' =? k)%string then (k', v) :: rest else (k', v') :: obj_set k v rest
  end.

(** [k in o] *)
Definition obj_has {V} (k : string) (o : object V) : bool :=
  match obj_get k o with Some _ => true | None => false end.

(** [{ ...dst, p1, p2, ... }]: the properties are defined from left to right. *)
Definition obj_assign {V} (dst : object V) (props : list (string * V)) : object V :=
  fold_left (fun o kv => obj_set (fst kv) (snd kv) o) props dst.

(** An object literal [{ p1, p2, ... }]. *)
Definition obj_literal {V} (props : list (string * V)) : object V :=
  obj_assign [] props.

End Js.

(* ================================================================= *)
(** ** [path.join] of Node (POSIX flavour)

    [join] concatenates its non-empty arguments with ['/'] and normalizes the
    result: empty and ['.'] segments disappear, a ['..'] segment removes the
    segment before it, a trailing separator is kept. *)

Module Path.

Definition is_sep (c : ascii) : bool := Ascii.eqb c "/"%char.

(** The pieces of a path between its separators. *)
Fixpoint segments (s : string) : list string :=
  match s with
  | EmptyString => [EmptyString]
  | String c r =>
      if is_sep c then EmptyString :: segments r
      else match segments r with
           | seg :: more => String c seg :: more
           | [] => [String c EmptyString]
           end
  end.

Fixpoint has_sep (s : string) : bool :=
  match s with
  | EmptyString => false
  | String c r => is_sep c || has_sep r
  end.

Fixpoint trailingSeparator (s : string) : bool :=
  match s with
  | EmptyString => false
  | String c EmptyString => is_sep c
  | String _ r => trailingSeparator r
  end.

Definition isAbsolute (s : string) : bool :=
  match s with
  | String c _ => is_sep c
  | EmptyString => false
  end.

(** [normalizeString]: [res] is the stack of segments kept so far, the last
    one first. *)
Fixpoint normalizeSegments (allowAboveRoot : bool) (res segs : list string)
  : list string :=
  match segs with
  | [] => rev res
  | seg :: more =>
      if ((seg =? "") || (seg =? "."))%string
      then normalizeSegments allowAboveRoot res more
      else if (seg =? "..")%string
      then match res with
           | top :: below =>
               if (top =? "..")%string
               then normalizeSegments allowAboveRoot
                      (if allowAboveRoot then ".." :: res else res) more
               else normalizeSegments allowAboveRoot below more
           | [] =>
               normalizeSegments allowAboveRoot
                 (if allowAboveRoot then [".."] else []) more
           end
      else normalizeSegments allowAboveRoot (seg :: res) more
  end.

Definition normalizeString (path : string) (allowAboveRoot : bool) : string :=
  String.concat "/" (normalizeSegments allowAboveRoot [] (segments path)).

Definition normalize (path : string) : string :=
  if (path =? "")%string then "."
  else
    let absolute := isAbsolute path in
    let trailing := trailingSeparator path in
    let p := normalizeString path (negb absolute) in
    if (p =? "")%string
    then (if absolute then "/" else if trailing then "./" else ".")
    else
      let p := if trailing then p ++ "/" else p in
      if absolute then "/" ++ p else p.

Definition join (args : list string) : string :=
  match filter (fun a => negb (a =? "")%string) args with
  | [] => "."
  | parts => normalize (String.concat "/" parts)
  end.

End Path.

(* ================================================================= *)
(** ** Errors, results and promises *)

(** What a [throw] carries and what a promise is rejected with. *)
Inductive Reason : Type :=
| Error (message : string)         (* [new Error(message)] *)
| SignFailure (message : string)   (* thrown by [sign] of jsonwebtoken *)
| SyntaxError                      (* thrown by [JSON.parse] *)
| StreamFailure (code : string)    (* the argument of a stream's 'error' event *)
| TimedOut.                        (* [reject] run as the 'timeout' listener: it
                                      receives no argument *)

(** The result of synchronous code. *)
Inductive Result (A : Type) : Type :=
| Return (a : A)
| Throw (e : Reason).
Arguments Return {A} a.
Arguments Throw {A} e.

(** How a promise ends. [Unsettled None]: nothing ever resolves or rejects
    it. [Unsettled (Some e)]: a listener threw [e]; the exception leaves the
    listener into the event loop (an uncaught exception) and the promise the
    listener was to resolve stays pending. *)
Inductive Outcome (A : Type) : Type :=
| Fulfilled (a : A)
| Rejected (e : Reason)
| Unsettled (uncaught : option Reason).
Arguments Fulfilled {A} a.
Arguments Rejected {A} e.
Arguments Unsettled {A} uncaught.

Definition settled {A} (o : Outcome A) : bool :=
  match o with Unsettled _ => false | _ => true end.

(** [Promise.all]: rejected when an element is rejected, fulfilled with all
    the values, in order, when every element is fulfilled, pending otherwise.
    Settling times are not part of [Outcome]: of several rejections (or
    uncaught exceptions) the first in the list is reported. *)
Fixpoint first_rejection {A} (ps : list (Outcome A)) : option Reason :=
  match ps with
  | [] => None
  | Rejected e :: _ => Some e
  | _ :: more => first_rejection more
  end.

Fixpoint all_fulfilled {A} (ps : list (Outcome A)) : option (list A) :=
  match ps with
  | [] => Some []
  | Fulfilled a :: more =>
      match all_fulfilled more with Some l => Some (a :: l) | None => None end
  | _ :: _ => None
  end.

Fixpoint first_uncaught {A} (ps : list (Outcome A)) : option Reason :=
  match ps with
  | [] => None
  | Unsettled (Some e) :: _ => Some e
  | _ :: more => first_uncaught more
  end.

Definition Promise_all {A} (ps : list (Outcome A)) : Outcome (list A) :=
  match first_rejection ps with
  | Some e => Rejected e
  | None =>
      match all_fulfilled ps with
      | Some values => Fulfilled values
      | None => Unsettled (first_uncaught ps)
      end
  end.

(* ================================================================= *)
(** ** Data *)

(** A parsed JSON text. *)
#[local] Unset Elimination Schemes.
Inductive Json : Type :=
| JNull
| JBool (b : bool)
| JNumber (n : Z)
| JString (s : string)
| JArray (items : list Json)
| JObject (props : list (string * Json)).
#[local] Set Elimination Schemes.

Definition Buffer : Type := list Byte.byte.
Definition Buffer_concat (chunks : list Buffer) : Buffer := List.concat chunks.

(** A header value: a string, or [undefined]. *)
Inductive HeaderValue : Type :=
| HUndefined
| HString (s : string).

Definition Headers : Type := Js.object HeaderValue.
Definition IncomingHttpHeaders : Type := Js.object string.

(** Modelled from the spec: the [Notification] entity of
    [src/notifications/notification], which is not among the sources. Its
    fields are those the specification lists: [deviceToken: string],
    [pushType: string], [priority?: number],
    [options?: { topic?, expiration?: number|Date, collapseId?: string }] and
    a method producing the serializable payload. A [Date] is given by its
    [getTime()]. *)
Inductive Expiration : Type :=
| ExpirationNumber (seconds : Z)
| ExpirationDate (getTime : Z).

Record NotificationOptions : Type := {
  topic : option string;
  expiration : option Expiration;
  collapseId : option string
}.

Record Notification : Type := {
  deviceToken : string;
  pushType : string;
  priority : option Z;
  options : option NotificationOptions;
  buildApnsOptions : Json
}.

(** [notification?.options?.f] *)
Definition option_of {A} (n : Notification) (f : NotificationOptions -> option A)
  : option A :=
  match options n with Some o => f o | None => None end.

Definition truthy_expiration (e : Expiration) : bool :=
  match e with
  | ExpirationNumber seconds => Js.truthy_number seconds
  | ExpirationDate _ => true
  end.

(** [interface SigningToken] *)
Record SigningToken : Type := {
  value : string;
  timestamp : Z
}.

(** The claims and options handed to [sign]. *)
Record JwtClaims : Type := { iss : string; iat : Z }.
Record JwtHeader : Type := { alg : string; kid : string }.
Record SignOptions : Type := { algorithm : string; header : JwtHeader }.
Definition Secret : Type := string.

(** [interface IRequestOptions] *)
Inductive Method : Type := POST | PUT | DELETE | GET.

Definition Method_toString (m : Method) : string :=
  match m with POST => "POST" | PUT => "PUT" | DELETE => "DELETE" | GET => "GET" end.

Record IRequestOptions : Type := {
  headers : option Headers;
  body : option string;
  method : Method;
  timeout : option Z
}.

(** What [request] resolves with. *)
Record Response : Type := {
  status : option Z;
  statusText : string;
  responseHeaders : IncomingHttpHeaders;
  responseBody : option Json
}.

(* ----------------------------------------------------------------- *)
(** *** The HTTP/2 session as the wrapper sees it *)

(** What the server does on one stream. [answer]: the first thing to come
    back and the time it arrives, in milliseconds after the request was
    issued; [None] when nothing ever comes back. After headers, [trailing]
    is what follows. *)
Inductive Answer : Type :=
| AnswerHeaders (h : IncomingHttpHeaders)
| AnswerFailure (code : string).

Inductive Trailing : Type :=
| Chunk (data : Buffer)
| Finished
| Failed (code : string).

Record ServerStream : Type := {
  answer : option (Z * Answer);
  trailing : list Trailing
}.

(** The events a [ClientHttp2Stream] emits to its listeners. *)
Inductive StreamEvent : Type :=
| OnTimeout
| OnResponse (h : IncomingHttpHeaders)
| OnError (code : string)
| OnData (chunk : Buffer)
| OnEnd.

Definition trailing_event (t : Trailing) : StreamEvent :=
  match t with
  | Chunk data => OnData data
  | Finished => OnEnd
  | Failed code => OnError code
  end.

Definition answer_events (a : Answer) (after : list Trailing) : list StreamEvent :=
  match a with
  | AnswerHeaders h => OnResponse h :: map trailing_event after
  | AnswerFailure code => [OnError code]
  end.

(** The stream's timer, [setTimeout(msecs, listener)] of Node: once [msecs]
    milliseconds pass with nothing happening on the stream, it emits
    'timeout'. [armed] is the duration the wrapper set, if it set one. With
    no timer the stream never emits 'timeout'. *)
Definition emitted (armed : option Z) (req : ServerStream) : list StreamEvent :=
  match answer req with
  | None =>
      match armed with Some _ => [OnTimeout] | None => [] end
  | Some (arrival, a) =>
      match armed with
      | Some msecs =>
          if msecs <=? arrival
          then OnTimeout :: answer_events a (trailing req)
          else answer_events a (trailing req)
      | None => answer_events a (trailing req)
      end
  end.

(** A stream opened on the session: the headers and options given to
    [session.request], what was written, and whether [end()] was called. *)
Record StreamRecord : Type := {
  sentHeaders : Headers;
  endStream : bool;
  written : list string;
  ended : bool
}.

Record ClientHttp2Session : Type := {
  authority : string;
  streams : list StreamRecord
}.

(* ----------------------------------------------------------------- *)
(** *** The client object *)

(** The listeners the client registers on its emitter. *)
Inductive Listener : Type :=
| CallResetSigningToken.

(** [class ApnsClient extends Http2Wrapper] *)
Record ApnsClient : Type := {
  _http2Client : ClientHttp2Session;
  team : string;
  keyId : string;
  host : string;
  signingKey : Secret;
  defaultTopic : option string;
  _token : option SigningToken;
  _emitter : list (string * Listener)
}.

(** The state a call runs in: the client, how many times the clock has been
    read, and the calls made to [sign] so far, oldest first. *)
Record State : Type := {
  this : ApnsClient;
  clock : nat;
  signed : list JwtClaims
}.

(** What the code takes from outside the repository. *)
Record Runtime : Type := {
  (** [Date.now()]: the reading number [k], counted from 0 *)
  Date_now : nat -> Z;
  (** [sign] of jsonwebtoken *)
  sign : JwtClaims -> Secret -> SignOptions -> Result string;
  JSON_stringify : Json -> string;
  (** [JSON.parse]; [None] when it throws a [SyntaxError] *)
  JSON_parse : string -> option Json;
  (** [buffer.toString('utf8')] *)
  Buffer_toString : Buffer -> string;
  (** [Number(v)] of a header value; [None] for [NaN] *)
  Number : option string -> option Z;
  (** [getStatusText] of [src/helpers/status] *)
  getStatusText : option Z -> string;
  (** [Errors.expiredProviderToken] of [src/constants/errors] *)
  expiredProviderToken : string;
  (** what the server does on the stream number [k] of the session *)
  server : nat -> ServerStream
}.

(* ================================================================= *)
(** ** The monad of synchronous code *)

Definition M (A : Type) : Type := State -> Result A * State.

Definition ret {A} (a : A) : M A := fun s => (Return a, s).

Definition throw {A} (e : Reason) : M A := fun s => (Throw e, s).

Definition bind {A B} (m : M A) (k : A -> M B) : M B :=
  fun s =>
    match m s with
    | (Return a, s') => k a s'
    | (Throw e, s') => (Throw e, s')
    end.

Notation "x <- m ;; k" := (bind m (fun x => k))
  (at level 61, m at next level, right associativity).
Notation "m ;;; k" := (bind m (fun _ => k))
  (at level 61, right associativity).

Definition get_this : M ApnsClient := fun s => (Return (this s), s).

Definition with_token (c : ApnsClient) (t : option SigningToken) : ApnsClient :=
  {| _http2Client := _http2Client c; team := team c; keyId := keyId c;
     host := host c; signingKey := signingKey c; defaultTopic := defaultTopic c;
     _token := t; _emitter := _emitter c |}.

Definition with_stream (c : ApnsClient) (r : StreamRecord) : ApnsClient :=
  {| _http2Client :=
       {| authority := authority (_http2Client c);
          streams := streams (_http2Client c) ++ [r] |};
     team := team c; keyId := keyId c;
     host := host c; signingKey := signingKey c; defaultTopic := defaultTopic c;
     _token := _token c; _emitter := _emitter c |}.

(** [this._token = t] *)
Definition set_token (t : option SigningToken) : M unit :=
  fun s =>
    (Return tt, {| this := with_token (this s) t; clock := clock s; signed := signed s |}).

(** An [async] function: its synchronous part runs at the call, and the
    promise it returns ends as [Outcome] says. A [throw] in the synchronous
    part rejects the promise. *)
Definition Async (A : Type) : Type := State -> Outcome A * State.

Definition async {A B} (m : M A) (k : A -> Async B) : Async B :=
  fun s =>
    match m s with
    | (Return a, s') => k a s'
    | (Throw e, s') => (Rejected e, s')
    end.

(** [promise.catch(f)]: the promise that is fulfilled with the value of
    [promise], or with [f reason] when [promise] is rejected; it stays
    unsettled when [promise] does. The result has the union type. *)
Definition caught {A B} (f : Reason -> B) (o : Outcome A) : Outcome (A + B) :=
  match o with
  | Fulfilled a => Fulfilled (inl a)
  | Rejected e => Fulfilled (inr (f e))
  | Unsettled u => Unsettled u
  end.

Definition catch {A B} (p : Async A) (f : Reason -> B) : Async (A + B) :=
  fun s => let (o, s') := p s in (caught f o, s').

(** [array.map(f)] where [f] has effects: the elements are visited in
    order. *)
Fixpoint Array_map {A B} (f : A -> State -> B * State) (l : list A) (s : State)
  : list B * State :=
  match l with
  | [] => ([], s)
  | a :: more =>
      let (b, s1) := f a s in
      let (bs, s2) := Array_map f more s1 in
      (b :: bs, s2)
  end.

(* ================================================================= *)
(** ** The code *)

(** [src/apns/apns.ts], lines 8-20 *)
Definition API_VERSION : Z := 3.
Definition SIGNING_ALGORITHM : string := "ES256".
Definition RESET_TOKEN_INTERVAL_MS : Z := 55 * 60 * 1000.
Definition Host_production : string := "api.push.apple.com".
Definition Host_development : string := "api.sandbox.push.apple.com".

(** [interface ApnsOptions] *)
Module ApnsOptions.
Record t : Type := {
  team : string;
  signingKey : Secret;
  keyId : string;
  defaultTopic : option string;
  host : option string;
  requestTimeout : option Z;
  pingInterval : option Z;
  connections : option Z
}.
End ApnsOptions.

Definition getUrl (host : option string) : string :=
  "https://" ++ Js.nullish host Host_production.

(** The names of the HTTP/2 pseudo-headers, [http2.constants]. *)
Definition HTTP2_HEADER_METHOD : string := ":method".
Definition HTTP2_HEADER_PATH : string := ":path".
Definition HTTP2_HEADER_STATUS : string := ":status".

Section Code.

Variable rt : Runtime.

(** [Date.now()] *)
Definition now : M Z :=
  fun s =>
    (Return (Date_now rt (clock s)),
     {| this := this s; clock := S (clock s); signed := signed s |}).

(** A call of [sign]. *)
Definition call_sign (claims : JwtClaims) (key : Secret) (o : SignOptions)
  : M string :=
  fun s =>
    (sign rt claims key o,
     {| this := this s; clock := clock s; signed := (signed s ++ [claims])%list |}).

(* ----------------------------------------------------------------- *)
(** *** [Http2Wrapper] *)

(** [new Http2Wrapper({ url })]: [http2.connect(url)] *)
Definition Http2Wrapper_new (url : string) : ClientHttp2Session :=
  {| authority := url; streams := [] |}.

(** [_convertBufferToJson]: a [Buffer] is an object and [typeof] gives a
    non-empty string, so the guard always passes. *)
Definition _convertBufferToJson (buffer : Buffer) : Result (option Json) :=
  let text := Buffer_toString rt buffer in
  if Js.truthy_string text
  then match JSON_parse rt text with
       | Some v => Return (Some v)
       | None => Throw SyntaxError
       end
  else Return None.

(** The listeners of [_responseJson] at work on the events of the stream;
    [chunks] is the array they fill. The 'end' listener calls
    [_convertBufferToJson] before [resolve]: when that throws, the exception
    leaves the listener and nothing settles the promise. *)
Fixpoint bodyWait (chunks : list Buffer) (events : list StreamEvent)
  : Outcome (option Json) :=
  match events with
  | [] => Unsettled None
  | OnError code :: _ => Rejected (StreamFailure code)
  | OnData chunk :: more => bodyWait (chunks ++ [chunk]) more
  | OnEnd :: _ =>
      match _convertBufferToJson (Buffer_concat chunks) with
      | Return v => Fulfilled v
      | Throw e => Unsettled (Some e)
      end
  | OnTimeout :: more => bodyWait chunks more
  | OnResponse _ :: more => bodyWait chunks more
  end.

Definition _responseJson (events : list StreamEvent) : Outcome (option Json) :=
  bodyWait [] events.

(** The listeners of [_responseHeaders] at work: 'timeout' (registered only
    when a timer was set), 'error' and 'response'. The events left over are
    returned with the outcome. Before the 'data' listener exists the stream
    holds its data back, so no 'data' or 'end' event is seen here. *)
Fixpoint headerWait (timeoutListener : bool) (events : list StreamEvent)
  : Outcome (IncomingHttpHeaders * option Z) * list StreamEvent :=
  match events with
  | [] => (Unsettled None, [])
  | OnTimeout :: more =>
      if timeoutListener then (Rejected TimedOut, more)
      else headerWait timeoutListener more
  | OnError code :: more => (Rejected (StreamFailure code), more)
  | OnResponse h :: more =>
      (Fulfilled (h, Number rt (Js.obj_get HTTP2_HEADER_STATUS h)), more)
  | OnData _ :: more => headerWait timeoutListener more
  | OnEnd :: more => headerWait timeoutListener more
  end.

(** [if (timeout) { req.setTimeout(timeout ?? 5000, reject) }]: the duration
    of the timer that is set, if one is. *)
Definition armedTimer (timeout : option Z) : option Z :=
  match timeout with
  | Some msecs =>
      if Js.truthy_number msecs then Some (Js.nullish timeout 5000) else None
  | None => None
  end.

Definition _responseHeaders (req : ServerStream) (timeout : option Z)
  : Outcome (IncomingHttpHeaders * option Z) * list StreamEvent :=
  let armed := armedTimer timeout in
  headerWait (match armed with Some _ => true | None => false end)
             (emitted armed req).

Definition truthy_body (b : option string) : bool :=
  match b with Some text => Js.truthy_string text | None => false end.

(** The headers [request] hands to [session.request]. *)
Definition requestHeaders (path : string) (options : IRequestOptions) : Headers :=
  Js.obj_assign
    (Js.obj_assign [] (Js.nullish (headers options) []))
    [ (HTTP2_HEADER_METHOD, HString (Method_toString (method options)));
      (HTTP2_HEADER_PATH, HString path) ].

(** The stream [request] opens, writes and ends. *)
Definition requestStream (path : string) (options : IRequestOptions) : StreamRecord :=
  {| sentHeaders := requestHeaders path options;
     endStream := negb (truthy_body (body options));
     written := if truthy_body (body options)
                then [Js.nullish (body options) ""] else [];
     ended := true |}.

(** [async request(path, options)]. The session is taken to be open and
    to accept the call: [session.request] returns the new stream, and the
    body, when there is one, is a string that [write] takes. (Node throws
    from [session.request] on a closed session and on headers HTTP/2
    forbids, and from [write] on a body that is not a string; such a call is
    rejected before [end] is reached, and is outside this model.) *)
Definition request (path : string) (options : IRequestOptions) : Async Response :=
  fun s =>
    let id := length (streams (_http2Client (this s))) in
    let s' := {| this := with_stream (this s) (requestStream path options);
                 clock := clock s; signed := signed s |} in
    let req := server rt id in
    match _responseHeaders req (timeout options) with
    | (Fulfilled (h, st), events) =>
        match _responseJson events with
        | Fulfilled b =>
            (Fulfilled {| status := st; statusText := getStatusText rt st;
                          responseHeaders := h; responseBody := b |}, s')
        | Rejected e => (Rejected e, s')
        | Unsettled u => (Unsettled u, s')
        end
    | (Rejected e, _) => (Rejected e, s')
    | (Unsettled u, _) => (Unsettled u, s')
    end.

(** What the server does on the stream that [request] opens when it is
    called in state [s]. *)
Definition streamOf (s : State) : ServerStream :=
  server rt (length (streams (_http2Client (this s)))).

(** [options] without its timeout. *)
Definition noTimeout (options : IRequestOptions) : IRequestOptions :=
  {| headers := headers options; body := body options;
     method := method options; timeout := None |}.

(* ----------------------------------------------------------------- *)
(** *** [ApnsClient] *)

(** [_resetSigningToken] *)
Definition _resetSigningToken : M unit := set_token None.

(** [_handleEvents]: the listener put on the emitter. *)
Definition _handleEvents (c : ApnsClient) : ApnsClient :=
  {| _http2Client := _http2Client c; team := team c; keyId := keyId c;
     host := host c; signingKey := signingKey c; defaultTopic := defaultTopic c;
     _token := _token c;
     _emitter := _emitter c ++ [(expiredProviderToken rt, CallResetSigningToken)] |}.

(** [constructor(options)] *)
Definition ApnsClient_new (options : ApnsOptions.t) : ApnsClient :=
  _handleEvents
    {| _http2Client := Http2Wrapper_new (getUrl (ApnsOptions.host options));
       team := ApnsOptions.team options;
       keyId := ApnsOptions.keyId options;
       host := Js.nullish (ApnsOptions.host options) Host_production;
       signingKey := ApnsOptions.signingKey options;
       defaultTopic := ApnsOptions.defaultTopic options;
       _token := None;
       _emitter := [] |}.

Definition run_listener (l : Listener) : M unit :=
  match l with
  | CallResetSigningToken => _resetSigningToken
  end.

Fixpoint run_listeners (name : string) (ls : list (string * Listener)) : M unit :=
  match ls with
  | [] => ret tt
  | (n, l) :: more =>
      if (n =? name)%string
      then run_listener l ;;; run_listeners name more
      else run_listeners name more
  end.

(** [this._emitter.emit(name)] *)
Definition emit (name : string) : M unit :=
  self <- get_this ;; run_listeners name (_emitter self).

(** [_getPath] *)
Definition _getPath (deviceToken : string) : M string :=
  if negb (Js.truthy_string deviceToken)
  then throw (Error "Device token is required")
  else ret (Path.join ["/" ++ Js.Number_toString API_VERSION; "device"; deviceToken]).

(** The options [_getSigningToken] gives to [sign]. *)
Definition signOptions (self : ApnsClient) : SignOptions :=
  {| algorithm := SIGNING_ALGORITHM;
     header := {| alg := SIGNING_ALGORITHM; kid := keyId self |} |}.

(** The part of [_getSigningToken] after the test of the cache. *)
Definition signNewToken : M string :=
  self <- get_this ;;
  t <- now ;;
  let claims := {| iss := team self; iat := Js.Math_floor_div t 1000 |} in
  token <- call_sign claims (signingKey self) (signOptions self) ;;
  t' <- now ;;
  set_token (Some {| value := token; timestamp := t' |}) ;;;
  ret token.

(** The claims that are signed when the reading number [k] of the clock is
    the one taken for [iat]. *)
Definition claimsAt (s : State) (k : nat) : JwtClaims :=
  {| iss := team (this s); iat := Date_now rt k / 1000 |}.

(** [_getSigningToken]: [&&] reads the clock only when a token is cached. *)
Definition _getSigningToken : M string :=
  self <- get_this ;;
  match _token self with
  | Some tok =>
      t <- now ;;
      if t - timestamp tok <? RESET_TOKEN_INTERVAL_MS
      then ret (value tok)
      else signNewToken
  | None => signNewToken
  end.

(** The header [apns-expiration] of an expiration that passed the test. *)
Definition expirationHeader (e : Expiration) : string :=
  match e with
  | ExpirationNumber seconds => Js.toFixed0 seconds
  | ExpirationDate getTime => Js.div_toFixed0 getTime 1000
  end.

(** [_buildHeaders]: the properties of the literal are evaluated in order,
    the signing token first and the path last. *)
Definition _buildHeaders (notification : Notification) : M Headers :=
  token <- _getSigningToken ;;
  self <- get_this ;;
  p <- _getPath (deviceToken notification) ;;
  let headers : Headers :=
    Js.obj_literal
      [ ("authorization", HString ("bearer " ++ token));
        ("apns-push-type", HString (pushType notification));
        ("apns-priority",
         HString (Js.nullish (option_map Js.Number_toString (priority notification)) "0"));
        ("apns-topic",
         match option_of notification topic with
         | Some t => HString t
         | None => match defaultTopic self with
                   | Some t => HString t
                   | None => HUndefined
                   end
         end);
        (":method", HString "POST");
        (":scheme", HString "https");
        (":path", HString p) ] in
  let headers :=
    match option_of notification expiration with
    | Some e =>
        if truthy_expiration e
        then Js.obj_set "apns-expiration" (HString (expirationHeader e)) headers
        else headers
    | None => headers
    end in
  let headers :=
    match option_of notification collapseId with
    | Some id =>
        if Js.truthy_string id
        then Js.obj_set "apns-collapse-id" (HString id) headers
        else headers
    | None => headers
    end in
  ret headers.

(** [_push]: the arguments of [this.request] are evaluated from left to
    right, the path before the options. *)
Definition _push (notification : Notification) : Async Response :=
  async
    (p <- _getPath (deviceToken notification) ;;
     h <- _buildHeaders notification ;;
     ret (p, h))
    (fun ph =>
       request (fst ph)
         {| headers := Some (snd ph);
            body := Some (JSON_stringify rt (buildApnsOptions notification));
            method := POST;
            timeout := None |}).

(** [send] *)
Definition send (notification : Notification) : Async Response :=
  _push notification.

(** An element of what [sendMany] resolves with: a response, or
    [{ error }]. *)
Record Captured : Type := { error : Reason }.

(** [sendMany] *)
Definition sendMany (notifications : list Notification)
  : Async (list (Response + Captured)) :=
  fun s =>
    let (promises, s') :=
      Array_map
        (fun notification =>
           catch (_push notification) (fun error => {| error := error |}))
        notifications s in
    (Promise_all promises, s').

End Code.

(** An element of the result of [sendMany] and the outcome of the send it
    stands for: the response of a fulfilled send, or [{ error }] with the
    reason of a rejected one. *)
Definition captures (o : Outcome Response) (r : Response + Captured) : Prop :=
  match o, r with
  | Fulfilled a, inl a' => a' = a
  | Rejected e, inr c => error c = e
  | _, _ => False
  end.

(** The runtime [rt] with another server. *)
Definition with_server (rt : Runtime) (f : nat -> ServerStream) : Runtime :=
  {| Date_now := Date_now rt; sign := sign rt;
     JSON_stringify := JSON_stringify rt; JSON_parse := JSON_parse rt;
     Buffer_toString := Buffer_toString rt; Number := Number rt;
     getStatusText := getStatusText rt;
     expiredProviderToken := expiredProviderToken rt;
     server := f |}.

(** What the constructor sets and no method assigns afterwards: the
    [readonly] fields, the emitter with its listener, and the authority of
    the session. *)
Definition configuration (c : ApnsClient)
  : string * string * string * Secret * option string
    * list (string * Listener) * string :=
  (team c, keyId c, host c, signingKey c, defaultTopic c, _emitter c,
   authority (_http2Client c)).

(** The notifications of a list that carry a device token. *)
Definition withDeviceToken (ns : list Notification) : list Notification :=
  filter (fun n => Js.truthy_string (deviceToken n)) ns.

(* ================================================================= *)
(** ** A runtime and inputs for the examples *)

Module Example.

Definition bytes (s : string) : Buffer := list_byte_of_string s.

(** The clock advances by 1 000 000 ms (about 17 minutes) per reading. *)
Definition reading (k : nat) : Z := Z.of_nat k * 1000000.

(** A signer that writes the claims down. *)
Definition signer (claims : JwtClaims) (key : Secret) (o : SignOptions)
  : Result string :=
  Return (kid (header o) ++ "." ++ iss claims ++ "." ++ Js.Number_toString (iat claims)).

(** A parser that knows three texts. *)
Definition parse (text : string) : option Json :=
  if (text =? "{}")%string then Some (JObject [])
  else if (text =? "null")%string then Some JNull
  else if (text =? "[410]")%string then Some (JArray [JNumber 410])
  else None.

Definition toNumber (v : option string) : option Z :=
  match v with
  | Some "200" => Some 200
  | Some "410" => Some 410
  | _ => None
  end.

Definition reasonPhrase (st : option Z) : string :=
  match st with
  | Some 200 => "OK"
  | Some 410 => "Gone"
  | _ => ""
  end.

(** The server: stream 0 is answered after 20 ms with status 200 and no
    body; stream 1 after 30 ms with status 410 and a body in two chunks;
    stream 2 after 30 ms with a body that is not JSON; stream 3 fails after
    5 ms; the others are never answered. *)
Definition answers (k : nat) : ServerStream :=
  match k with
  | 0%nat => {| answer := Some (20, AnswerHeaders [(":status", "200")]);
                trailing := [Finished] |}
  | 1%nat => {| answer := Some (30, AnswerHeaders [(":status", "410")]);
                trailing := [Chunk (bytes "[41"); Chunk (bytes "0]"); Finished] |}
  | 2%nat => {| answer := Some (30, AnswerHeaders [(":status", "200")]);
                trailing := [Chunk (bytes "<html>"); Finished] |}
  | 3%nat => {| answer := Some (5, AnswerFailure "ECONNRESET"); trailing := [] |}
  | _ => {| answer := None; trailing := [] |}
  end.

Definition rt : Runtime :=
  {| Date_now := reading;
     sign := signer;
     JSON_stringify := fun _ => "{}";
     JSON_parse := parse;
     Buffer_toString := string_of_list_byte;
     Number := toNumber;
     getStatusText := reasonPhrase;
     expiredProviderToken := "ExpiredProviderToken";
     server := answers |}.

Definition apnsOptions : ApnsOptions.t :=
  {| ApnsOptions.team := "TEAM";
     ApnsOptions.signingKey := "KEY";
     ApnsOptions.keyId := "KID";
     ApnsOptions.defaultTopic := Some "com.example.app";
     ApnsOptions.host := None;
     ApnsOptions.requestTimeout := None;
     ApnsOptions.pingInterval := None;
     ApnsOptions.connections := None |}.

(** A new client, before any call. *)
Definition start : State :=
  {| this := ApnsClient_new rt apnsOptions; clock := 0; signed := [] |}.

(** The same client holding a token signed at time 0, [k] readings of the
    clock later. *)
Definition holding (tokenValue : string) (k : nat) : State :=
  {| this := with_token (ApnsClient_new rt apnsOptions)
               (Some {| value := tokenValue; timestamp := 0 |});
     clock := k; signed := [] |}.

(** The same client after [k] streams were opened on its session. *)
Definition after_streams (k : nat) : State :=
  {| this :=
       fold_left with_stream
         (repeat {| sentHeaders := []; endStream := true; written := [];
                    ended := true |} k)
         (ApnsClient_new rt apnsOptions);
     clock := 0; signed := [] |}.

Definition notification (token : string) (o : option NotificationOptions)
  : Notification :=
  {| deviceToken := token; pushType := "alert"; priority := Some 10;
     options := o; buildApnsOptions := JObject [] |}.

(** A notification whose expiration is the number 0 and whose collapse id
    is the empty string. *)
Definition expiresAtZero : Notification :=
  notification "a1b2"
    (Some {| topic := None; expiration := Some (ExpirationNumber 0);
             collapseId := Some "" |}).

(** A notification with every option set. *)
Definition withOptions : Notification :=
  notification "a1b2"
    (Some {| topic := Some "com.example.other";
             expiration := Some (ExpirationDate 1700000000500);
             collapseId := Some "id-1" |}).

(** Request options whose caller sets the pseudo-headers itself. *)
Definition callerPseudoHeaders : IRequestOptions :=
  {| headers := Some [ (":path", HString "/a"); (":method", HString "GET");
                       (":scheme", HString "https"); ("x-id", HString "7") ];
     body := None; method := POST; timeout := None |}.

(** Request options with a timeout of [msecs] milliseconds, or none. *)
Definition withTimeout (msecs : option Z) : IRequestOptions :=
  {| headers := None; body := None; method := GET; timeout := msecs |}.

(** A batch of three whose second notification has no device token. *)
Definition batch : list Notification :=
  [notification "a1b2" None; notification "" None; notification "c3d4" None].

(** The example runtime with a clock that stands still at 1000 ms. *)
Definition frozen : Runtime :=
  {| Date_now := fun _ => 1000;
     sign := signer;
     JSON_stringify := fun _ => "{}";
     JSON_parse := parse;
     Buffer_toString := string_of_list_byte;
     Number := toNumber;
     getStatusText := reasonPhrase;
     expiredProviderToken := "ExpiredProviderToken";
     server := answers |}.

(** The example runtime with a signer that rejects the key. *)
Definition keyless : Runtime :=
  {| Date_now := reading;
     sign := fun _ _ _ => Throw (SignFailure "secretOrPrivateKey must be an asymmetric key");
     JSON_stringify := fun _ => "{}";
     JSON_parse := parse;
     Buffer_toString := string_of_list_byte;
     Number := toNumber;
     getStatusText := reasonPhrase;
     expiredProviderToken := "ExpiredProviderToken";
     server := answers |}.

(** A server that sends the body [text] on every stream, cut as [chunks]
    says, after headers with status 200. *)
Definition sending (chunks : list Buffer) (k : nat) : ServerStream :=
  {| answer := Some (10, AnswerHeaders [(":status", "200")]);
     trailing := (map Chunk chunks ++ [Finished])%list |}.

End Example.

(* ================================================================= *)
(** * Properties *)

(* ----------------------------------------------------------------- *)
(** ** Objects *)

Section ObjectFacts.

Context {V : Type}.
Implicit Types (o : Js.object V) (k : string) (v : V).

Lemma obj_get_set_same k v o : Js.obj_get k (Js.obj_set k v o) = Some v.
Proof.
  induction o as [|[k' v'] rest IH]; simpl.
  - now rewrite String.eqb_refl.
  - destruct (k' =? k)%string eqn:E; simpl; rewrite E; auto.
Qed.

Lemma obj_get_set_other k k' v o :
  k <> k' -> Js.obj_get k' (Js.obj_set k v o) = Js.obj_get k' o.
Proof.
  intros Hne.
  induction o as [|[k0 v0] rest IH]; simpl.
  - apply String.eqb_neq in Hne. now rewrite Hne.
  - destruct (k0 =? k)%string eqn:E; simpl.
    + apply String.eqb_eq in E. subst k0.
      apply String.eqb_neq in Hne. now rewrite Hne.
    + destruct (k0 =? k')%string; auto.
Qed.

Lemma obj_has_set_same k v o : Js.obj_has k (Js.obj_set k v o) = true.
Proof. unfold Js.obj_has. now rewrite obj_get_set_same. Qed.

Lemma obj_has_set_other k k' v o :
  k <> k' -> Js.obj_has k' (Js.obj_set k v o) = Js.obj_has k' o.
Proof. intros. unfold Js.obj_has. now rewrite obj_get_set_other. Qed.

Lemma obj_get_none_not_in k o :
  Js.obj_get k o = None <-> ~ In k (map fst o).
Proof.
  induction o as [|[k' v'] rest IH]; simpl.
  - tauto.
  - destruct (k' =? k)%string eqn:E.
    + apply String.eqb_eq in E. split; [discriminate | intros H; exfalso; auto].
    + apply String.eqb_neq in E. rewrite IH. tauto.
Qed.

Lemma obj_set_fresh k v o :
  ~ In k (map fst o) -> Js.obj_set k v o = (o ++ [(k, v)])%list.
Proof.
  induction o as [|[k' v'] rest IH]; simpl; intros Hn; auto.
  destruct (k' =? k)%string eqn:E.
  - apply String.eqb_eq in E. exfalso; auto.
  - f_equal. apply IH. tauto.
Qed.

Lemma obj_assign_fresh (props dst : Js.object V) :
  NoDup (map fst props) ->
  (forall k, In k (map fst props) -> ~ In k (map fst dst)) ->
  Js.obj_assign dst props = (dst ++ props)%list.
Proof.
  revert dst.
  induction props as [|[k v] more IH]; intros dst Hnd Hdis; simpl.
  - now rewrite app_nil_r.
  - unfold Js.obj_assign in *. simpl.
    inversion Hnd as [|? ? Hnotin Hnd']; subst.
    rewrite obj_set_fresh by (apply Hdis; simpl; auto).
    rewrite IH; auto.
    + now rewrite <- app_assoc.
    + intros k0 Hin. rewrite map_app, in_app_iff. simpl.
      intros [Hd | [He | []]].
      * apply (Hdis k0); simpl; auto.
      * subst k0. auto.
Qed.

(** The copy [{ ...o }] of an object is the object. *)
Lemma obj_copy o : NoDup (map fst o) -> Js.obj_assign [] o = o.
Proof.
  intros Hnd. apply (obj_assign_fresh o [] Hnd). intros k _ [].
Qed.

End ObjectFacts.

(* ----------------------------------------------------------------- *)
(** ** Paths *)

Section PathFacts.

Lemma segments_no_sep (t : string) :
  Path.has_sep t = false -> Path.segments t = [t].
Proof.
  induction t as [|c r IH]; simpl; intros H; auto.
  apply orb_false_iff in H. destruct H as [Hc Hr].
  rewrite Hc, (IH Hr). reflexivity.
Qed.

Lemma trailingSeparator_no_sep (t : string) :
  Path.has_sep t = false -> Path.trailingSeparator t = false.
Proof.
  induction t as [|c r IH]; simpl; intros H; auto.
  apply orb_false_iff in H. destruct H as [Hc Hr].
  destruct r; auto.
Qed.

Lemma trailingSeparator_cons (c : ascii) (t : string) :
  t <> "" -> Path.trailingSeparator (String c t) = Path.trailingSeparator t.
Proof. destruct t; [congruence | reflexivity]. Qed.

Lemma trailingSeparator_app (p t : string) :
  t <> "" -> Path.trailingSeparator (p ++ t) = Path.trailingSeparator t.
Proof.
  intros Hne. induction p as [|a p' IH]; simpl append; auto.
  rewrite trailingSeparator_cons; auto.
  destruct p'; simpl; [assumption | discriminate].
Qed.

(** [path.join('/3', 'device', t)] for a token that is one plain segment. *)
Lemma join_device (t : string) :
  t <> "" -> Path.has_sep t = false -> t <> "." -> t <> ".." ->
  Path.join ["/3"; "device"; t] = "/3/device/" ++ t.
Proof.
  intros Hne Hsep Hdot Hdots.
  assert (E0 : (t =? "")%string = false) by now apply String.eqb_neq.
  assert (E1 : (t =? ".")%string = false) by now apply String.eqb_neq.
  assert (E2 : (t =? "..")%string = false) by now apply String.eqb_neq.
  assert (Htr : Path.trailingSeparator ("/3/device/" ++ t) = false).
  { rewrite trailingSeparator_app by assumption.
    now apply trailingSeparator_no_sep. }
  unfold Path.join. simpl filter. rewrite E0. simpl negb. cbv iota.
  change (String.concat "/" ["/3"; "device"; t]) with ("/3/device/" ++ t).
  unfold Path.normalize. rewrite Htr.
  change (("/3/device/" ++ t =? "")%string) with false.
  change (Path.isAbsolute ("/3/device/" ++ t)) with true.
  cbv iota zeta. simpl negb.
  unfold Path.normalizeString.
  replace (Path.segments ("/3/device/" ++ t)) with [""; "3"; "device"; t]
    by (simpl; now rewrite (segments_no_sep t Hsep)).
  simpl Path.normalizeSegments. rewrite E0, E1, E2. simpl.
  reflexivity.
Qed.

End PathFacts.

(* ----------------------------------------------------------------- *)
(** ** The request path and the device token *)

Lemma getPath_empty (s : State) :
  _getPath "" s = (Throw (Error "Device token is required"), s).
Proof. reflexivity. Qed.

Lemma getPath_nonempty (t : string) (s : State) :
  t <> "" ->
  _getPath t s = (Return (Path.join ["/3"; "device"; t]), s).
Proof.
  intros Hne. unfold _getPath, Js.truthy_string.
  apply String.eqb_neq in Hne. rewrite Hne. reflexivity.
Qed.

(** C1. A notification whose device token is the empty string: [send] is
    rejected with the error of [_getPath], raised while the path is built;
    no stream is opened on the session, the cached signing token is the one
    before the call, and indeed the whole state is unchanged (the clock was
    not read and [sign] was not called). *)
Theorem send_without_deviceToken (rt : Runtime) (n : Notification) (s : State) :
  deviceToken n = "" ->
  _getPath (deviceToken n) s = (Throw (Error "Device token is required"), s)
  /\ fst (send rt n s) = Rejected (Error "Device token is required")
  /\ streams (_http2Client (this (snd (send rt n s))))
     = streams (_http2Client (this s))
  /\ _token (this (snd (send rt n s))) = _token (this s)
  /\ snd (send rt n s) = s.
Proof.
  intros Hempty.
  assert (Hsend : send rt n s = (Rejected (Error "Device token is required"), s)).
  { unfold send, _push, async, bind. rewrite Hempty, getPath_empty. reflexivity. }
  rewrite Hempty, Hsend. simpl. repeat split; apply getPath_empty.
Qed.

Lemma send_without_deviceToken_witness :
  deviceToken (Example.notification "" None) = ""
  /\ fst (send Example.rt (Example.notification "" None) (Example.holding "t" 1))
     = Rejected (Error "Device token is required")
  /\ snd (send Example.rt (Example.notification "" None) (Example.holding "t" 1))
     = Example.holding "t" 1.
Proof.
  split; [reflexivity|].
  destruct (send_without_deviceToken Example.rt (Example.notification "" None)
              (Example.holding "t" 1) eq_refl) as (_ & Hfst & _ & _ & Hsnd).
  exact (conj Hfst Hsnd).
Defined.

(** C9, as the code has it. [_getPath] joins ["/3"], ["device"] and the
    token with [path.join], which normalizes: for every non-empty token the
    path is the normal form of [/3/device/<token>], and it is
    [/3/device/<token>] itself when the token is one plain segment (it holds
    no ['/'] and is neither ['.'] nor ['..']), as every hexadecimal device
    token is. *)
Theorem getPath_device_token (t : string) (s : State) :
  t <> "" ->
  _getPath t s = (Return (Path.normalize ("/3/device/" ++ t)), s)
  /\ (Path.has_sep t = false -> t <> "." -> t <> ".." ->
      _getPath t s = (Return ("/3/device/" ++ t), s)).
Proof.
  intros Hne. split.
  - rewrite getPath_nonempty by assumption.
    unfold Path.join. simpl filter.
    apply String.eqb_neq in Hne. rewrite Hne. reflexivity.
  - intros Hsep Hdot Hdots.
    rewrite getPath_nonempty by assumption.
    now rewrite join_device.
Qed.

Lemma getPath_device_token_witness :
  "a1b2" <> ""
  /\ _getPath "a1b2" Example.start = (Return "/3/device/a1b2", Example.start).
Proof.
  assert (Hne : "a1b2" <> "") by discriminate.
  split; [exact Hne|].
  apply (proj2 (getPath_device_token "a1b2" Example.start Hne));
    [reflexivity | discriminate | discriminate].
Defined.

(** C9 as stated fails: the token [".."] is not empty, and its path is
    ["/3"], not ["/3/device/.."]. *)
Lemma getPath_dotdot_counterexample :
  ".." <> ""
  /\ _getPath ".." Example.start = (Return "/3", Example.start)
  /\ "/3" <> "/3/device/" ++ "..".
Proof.
  split; [discriminate|]. split; [reflexivity | discriminate].
Qed.

(* ----------------------------------------------------------------- *)
(** ** The signing token *)

Section SigningToken.

Variable rt : Runtime.

Lemma RESET_TOKEN_INTERVAL_MS_value : RESET_TOKEN_INTERVAL_MS = 3300000.
Proof. reflexivity. Qed.

(** [signNewToken], run. *)
Lemma signNewToken_run (s : State) :
  signNewToken rt s =
  match sign rt (claimsAt rt s (clock s)) (signingKey (this s)) (signOptions (this s)) with
  | Return token =>
      (Return token,
       {| this := with_token (this s)
                    (Some {| value := token;
                             timestamp := Date_now rt (S (clock s)) |});
          clock := S (S (clock s));
          signed := signed s ++ [claimsAt rt s (clock s)] |})
  | Throw e =>
      (Throw e,
       {| this := this s; clock := S (clock s);
          signed := signed s ++ [claimsAt rt s (clock s)] |})
  end.
Proof.
  unfold signNewToken, bind, get_this, now, call_sign, set_token, ret, claimsAt,
    Js.Math_floor_div.
  simpl. destruct (sign rt _ _ _); reflexivity.
Qed.

Lemma getSigningToken_young (s : State) (tok : SigningToken) :
  _token (this s) = Some tok ->
  Date_now rt (clock s) - timestamp tok < RESET_TOKEN_INTERVAL_MS ->
  _getSigningToken rt s
  = (Return (value tok),
     {| this := this s; clock := S (clock s); signed := signed s |}).
Proof.
  intros Htok Hage. unfold _getSigningToken, bind, get_this, now. simpl.
  rewrite Htok. apply Z.ltb_lt in Hage. rewrite Hage. reflexivity.
Qed.

Lemma getSigningToken_old (s : State) (tok : SigningToken) :
  _token (this s) = Some tok ->
  RESET_TOKEN_INTERVAL_MS <= Date_now rt (clock s) - timestamp tok ->
  _getSigningToken rt s
  = signNewToken rt {| this := this s; clock := S (clock s); signed := signed s |}.
Proof.
  intros Htok Hage. unfold _getSigningToken, bind, get_this, now. simpl.
  rewrite Htok. apply Z.ltb_ge in Hage. rewrite Hage. reflexivity.
Qed.

Lemma getSigningToken_absent (s : State) :
  _token (this s) = None -> _getSigningToken rt s = signNewToken rt s.
Proof.
  intros Htok. unfold _getSigningToken, bind, get_this. simpl.
  now rewrite Htok.
Qed.

(** A call that returns leaves the returned value in the cache. *)
Lemma getSigningToken_caches (s s1 : State) (v : string) :
  _getSigningToken rt s = (Return v, s1) ->
  exists tok, _token (this s1) = Some tok /\ value tok = v.
Proof.
  intros Hcall.
  destruct (_token (this s)) as [tok|] eqn:Htok.
  - destruct (Z.lt_ge_cases (Date_now rt (clock s) - timestamp tok)
                RESET_TOKEN_INTERVAL_MS) as [Hyoung | Hold].
    + rewrite (getSigningToken_young s tok Htok Hyoung) in Hcall.
      inversion Hcall; subst. exists tok. simpl. auto.
    + rewrite (getSigningToken_old s tok Htok Hold), signNewToken_run in Hcall.
      destruct (sign rt _ _ _); inversion Hcall; subst.
      eexists; simpl; split; reflexivity.
  - rewrite (getSigningToken_absent s Htok), signNewToken_run in Hcall.
    destruct (sign rt _ _ _); inversion Hcall; subst.
    eexists; simpl; split; reflexivity.
Qed.

(** C2. (1) A cached token whose age, at the reading of the clock, is
    strictly below 55 minutes is returned as it is: the cache keeps it and
    [sign] is not called. (2) So a call that follows a call that returned
    [v], in a state with the same cached token and still within the
    interval, returns [v] again. (3) Otherwise (no token, or one of age at
    least 55 minutes) [sign] is called on [{ iss: team, iat: floor(now /
    1000) }]; when it returns, its token is returned and cached with the
    next reading of the clock as timestamp; when it throws, the exception
    goes to the caller and the cache is left as it was. *)
Theorem getSigningToken_rotation (s : State) :
  (forall tok,
      _token (this s) = Some tok ->
      Date_now rt (clock s) - timestamp tok < 55 * 60 * 1000 ->
      fst (_getSigningToken rt s) = Return (value tok)
      /\ _token (this (snd (_getSigningToken rt s))) = Some tok
      /\ signed (snd (_getSigningToken rt s)) = signed s)
  /\ (forall v s1 s2,
         _getSigningToken rt s = (Return v, s1) ->
         _token (this s2) = _token (this s1) ->
         exists tok,
           _token (this s2) = Some tok /\ value tok = v
           /\ (Date_now rt (clock s2) - timestamp tok < 55 * 60 * 1000 ->
               fst (_getSigningToken rt s2) = Return v))
  /\ (match _token (this s) with
      | Some tok => 55 * 60 * 1000 <= Date_now rt (clock s) - timestamp tok
      | None => True
      end ->
      let k := match _token (this s) with
               | Some _ => S (clock s)
               | None => clock s
               end in
      let claims := {| iss := team (this s); iat := Date_now rt k / 1000 |} in
      signed (snd (_getSigningToken rt s)) = (signed s ++ [claims])%list
      /\ match sign rt claims (signingKey (this s)) (signOptions (this s)) with
         | Return token =>
             fst (_getSigningToken rt s) = Return token
             /\ _token (this (snd (_getSigningToken rt s)))
                = Some {| value := token; timestamp := Date_now rt (S k) |}
         | Throw e =>
             fst (_getSigningToken rt s) = Throw e
             /\ _token (this (snd (_getSigningToken rt s))) = _token (this s)
         end).
Proof.
  change (55 * 60 * 1000) with RESET_TOKEN_INTERVAL_MS.
  split; [|split].
  - intros tok Htok Hage.
    rewrite (getSigningToken_young s tok Htok Hage). simpl. auto.
  - intros v s1 s2 Hcall Hsame.
    destruct (getSigningToken_caches s s1 v Hcall) as (tok & Htok & Hval).
    exists tok. rewrite Hsame. repeat split; auto.
    intros Hage. rewrite <- Hsame in Htok.
    rewrite (getSigningToken_young s2 tok Htok Hage). simpl. now f_equal.
  - destruct (_token (this s)) as [tok|] eqn:Htok; intros Hstale; cbv zeta.
    + rewrite (getSigningToken_old s tok Htok Hstale), signNewToken_run.
      unfold claimsAt. simpl.
      destruct (sign rt _ _ _); simpl; auto.
    + rewrite (getSigningToken_absent s Htok), signNewToken_run.
      unfold claimsAt. simpl.
      destruct (sign rt _ _ _); simpl; auto.
Qed.

Lemma resetSigningToken_run (s : State) :
  _resetSigningToken s
  = (Return tt,
     {| this := with_token (this s) None; clock := clock s; signed := signed s |}).
Proof. reflexivity. Qed.

Lemma run_listeners_reset (name : string) (ls : list (string * Listener)) (s : State) :
  run_listeners name ls s
  = (Return tt,
     if existsb (fun nl => (fst nl =? name)%string) ls
     then snd (_resetSigningToken s) else s).
Proof.
  revert s. induction ls as [|[n l] more IH]; intros s; simpl; auto.
  destruct (n =? name)%string; simpl; auto.
  unfold bind. destruct l. simpl. rewrite IH. simpl.
  destruct (existsb _ more); reflexivity.
Qed.

(** The event [Errors.expiredProviderToken] runs [_resetSigningToken] on a
    client whose emitter carries the listener of [_handleEvents]. *)
Lemma emit_expiredProviderToken (s : State) :
  In (expiredProviderToken rt, CallResetSigningToken) (_emitter (this s)) ->
  emit (expiredProviderToken rt) s = _resetSigningToken s.
Proof.
  intros Hin. unfold emit, bind, get_this. rewrite run_listeners_reset.
  replace (existsb _ _) with true; [reflexivity|].
  symmetry. apply existsb_exists.
  eexists; split; [exact Hin | apply String.eqb_refl].
Qed.

Lemma ApnsClient_new_listens (o : ApnsOptions.t) :
  In (expiredProviderToken rt, CallResetSigningToken)
     (_emitter (ApnsClient_new rt o))
  /\ _token (ApnsClient_new rt o) = None.
Proof. simpl. auto. Qed.

Lemma getSigningToken_after_reset (s : State) :
  _getSigningToken rt (snd (_resetSigningToken s))
  = match sign rt (claimsAt rt s (clock s)) (signingKey (this s)) (signOptions (this s)) with
    | Return token =>
        (Return token,
         {| this := with_token (this s)
                      (Some {| value := token;
                               timestamp := Date_now rt (S (clock s)) |});
            clock := S (S (clock s));
            signed := signed s ++ [claimsAt rt s (clock s)] |})
    | Throw e =>
        (Throw e,
         {| this := with_token (this s) None; clock := S (clock s);
            signed := signed s ++ [claimsAt rt s (clock s)] |})
    end.
Proof.
  rewrite resetSigningToken_run. simpl snd.
  rewrite getSigningToken_absent by reflexivity.
  rewrite signNewToken_run. reflexivity.
Qed.

(** C3. [_resetSigningToken] leaves no cached token, whatever the state,
    and touches nothing else; the expired-credential event runs it. The call
    of [_getSigningToken] that follows calls [sign] once, on the claims of
    the current time, and its result is the result of that call of [sign]:
    the token cached before the reset, however young, plays no part. *)
Theorem resetSigningToken_forces_signing (s : State) :
  let s0 := snd (_resetSigningToken s) in
  let claims := {| iss := team (this s); iat := Date_now rt (clock s) / 1000 |} in
  fst (_resetSigningToken s) = Return tt
  /\ _token (this s0) = None
  /\ s0 = {| this := with_token (this s) None; clock := clock s; signed := signed s |}
  /\ (In (expiredProviderToken rt, CallResetSigningToken) (_emitter (this s)) ->
      snd (emit (expiredProviderToken rt) s) = s0)
  /\ signed (snd (_getSigningToken rt s0)) = (signed s ++ [claims])%list
  /\ fst (_getSigningToken rt s0)
     = sign rt claims (signingKey (this s)) (signOptions (this s))
  /\ (forall token,
         sign rt claims (signingKey (this s)) (signOptions (this s)) = Return token ->
         _token (this (snd (_getSigningToken rt s0)))
         = Some {| value := token; timestamp := Date_now rt (S (clock s)) |}).
Proof.
  cbv zeta. rewrite getSigningToken_after_reset. unfold claimsAt.
  split; [reflexivity|]. split; [reflexivity|]. split; [reflexivity|].
  split; [|split; [|split]].
  - intros Hin. now rewrite (emit_expiredProviderToken s Hin).
  - destruct (sign rt _ _ _); reflexivity.
  - destruct (sign rt _ _ _); reflexivity.
  - intros token Hsign. rewrite Hsign. reflexivity.
Qed.

End SigningToken.

Lemma getSigningToken_rotation_witness :
  fst (_getSigningToken Example.rt (Example.holding "old" 3)) = Return "old"
  /\ fst (_getSigningToken Example.rt
            (snd (_getSigningToken Example.rt Example.start)))
     = Return "KID.TEAM.0"
  /\ fst (_getSigningToken Example.rt (Example.holding "old" 4))
     = Return "KID.TEAM.5000".
Proof.
  split; [|split].
  - destruct (getSigningToken_rotation Example.rt (Example.holding "old" 3))
      as (Hyoung & _).
    apply (Hyoung {| value := "old"; timestamp := 0 |}); reflexivity.
  - destruct (getSigningToken_rotation Example.rt Example.start)
      as (_ & Htwice & _).
    destruct (Htwice "KID.TEAM.0"
                (snd (_getSigningToken Example.rt Example.start))
                (snd (_getSigningToken Example.rt Example.start))
                eq_refl eq_refl) as (tok & Htok & _ & Hnext).
    apply Hnext. injection Htok as <-. reflexivity.
  - destruct (getSigningToken_rotation Example.rt (Example.holding "old" 4))
      as (_ & _ & Hstale).
    apply Hstale. discriminate.
Defined.

Lemma resetSigningToken_forces_signing_witness :
  fst (_getSigningToken Example.rt (Example.holding "old" 1)) = Return "old"
  /\ fst (_getSigningToken Example.rt
            (snd (emit (expiredProviderToken Example.rt) (Example.holding "old" 1))))
     = Return "KID.TEAM.1000".
Proof.
  split; [reflexivity|].
  destruct (resetSigningToken_forces_signing Example.rt (Example.holding "old" 1))
    as (_ & _ & _ & Hemit & _ & Hsign & _).
  rewrite Hemit; [exact Hsign | left; reflexivity].
Defined.

(* ----------------------------------------------------------------- *)
(** ** The headers of a notification *)

Section BuildHeaders.

Variable rt : Runtime.

(** [_buildHeaders] returns once the signing token is there and the device
    token is not empty. *)
Lemma buildHeaders_returns (n : Notification) (s s1 : State) (token : string) :
  _getSigningToken rt s = (Return token, s1) ->
  deviceToken n <> "" ->
  exists h, _buildHeaders rt n s = (Return h, s1).
Proof.
  intros Htok Hne.
  unfold _buildHeaders, bind, get_this. rewrite Htok.
  rewrite (getPath_nonempty _ s1 Hne). unfold ret. eauto.
Qed.

Ltac options_cases n :=
  destruct (option_of n expiration) as [e|] eqn:Hexp;
    [destruct (truthy_expiration e) eqn:Htruthy|];
  (destruct (option_of n collapseId) as [c|] eqn:Hcol;
    [destruct (Js.truthy_string c) eqn:Hnonempty|]).

Ltac decide_presence :=
  split;
  [ intros Hhas; first [discriminate Hhas | eexists; split; [reflexivity | assumption]]
  | intros (x & Hx & Hy); first [reflexivity | congruence] ].

(** C5, as the code has it. The headers [_buildHeaders] returns hold
    [apns-push-type] (the push type) and [apns-priority] (the priority as a
    decimal numeral, ["0"] when there is none); they hold [apns-expiration]
    exactly when the expiration option is set and truthy (a date, or a
    number other than 0), and [apns-collapse-id] exactly when the collapse
    id is set and truthy (not the empty string). *)
Theorem buildHeaders_keys (n : Notification) (s s' : State) (h : Headers) :
  _buildHeaders rt n s = (Return h, s') ->
  Js.obj_get "apns-push-type" h = Some (HString (pushType n))
  /\ Js.obj_get "apns-priority" h
     = Some (HString match priority n with
                     | Some p => Js.Number_toString p
                     | None => "0"
                     end)
  /\ (Js.obj_has "apns-expiration" h = true
      <-> exists e, option_of n expiration = Some e /\ truthy_expiration e = true)
  /\ (Js.obj_has "apns-collapse-id" h = true
      <-> exists c, option_of n collapseId = Some c /\ Js.truthy_string c = true).
Proof.
  unfold _buildHeaders, bind, get_this, ret.
  destruct (_getSigningToken rt s) as [[token|err] s1]; [|discriminate].
  destruct (_getPath (deviceToken n) s1) as [[p|err] s2]; [|discriminate].
  intros Hrun. injection Hrun as <- _.
  assert (Hpriority :
    Js.nullish (option_map Js.Number_toString (priority n)) "0"
    = match priority n with Some p => Js.Number_toString p | None => "0" end)
    by (destruct (priority n); reflexivity).
  rewrite <- Hpriority.
  options_cases n; (split; [reflexivity | split; [reflexivity | split]]);
    decide_presence.
Qed.

End BuildHeaders.

Lemma buildHeaders_keys_witness :
  exists h,
    fst (_buildHeaders Example.rt Example.withOptions Example.start) = Return h
    /\ Js.obj_get "apns-priority" h = Some (HString "10")
    /\ Js.obj_get "apns-expiration" h = Some (HString "1700000001")
    /\ Js.obj_has "apns-collapse-id" h = true.
Proof.
  destruct (buildHeaders_returns Example.rt Example.withOptions Example.start
              (snd (_getSigningToken Example.rt Example.start)) "KID.TEAM.0"
              eq_refl) as (h & Hrun); [discriminate|].
  destruct (buildHeaders_keys Example.rt Example.withOptions Example.start _ h Hrun)
    as (_ & Hpriority & _ & Hcollapse).
  exists h. split; [now rewrite Hrun|]. split; [exact Hpriority|].
  split.
  - vm_compute in Hrun. injection Hrun as <-. reflexivity.
  - apply Hcollapse. exists "id-1". split; reflexivity.
Defined.

(** C5 as stated fails: the expiration of this notification is set (to the
    number 0) and so is its collapse id (to the empty string), and the
    headers built for it hold neither [apns-expiration] nor
    [apns-collapse-id]. *)
Lemma buildHeaders_falsy_options_counterexample :
  option_of Example.expiresAtZero expiration = Some (ExpirationNumber 0)
  /\ option_of Example.expiresAtZero collapseId = Some ""
  /\ exists h,
       fst (_buildHeaders Example.rt Example.expiresAtZero Example.start) = Return h
       /\ Js.obj_has "apns-expiration" h = false
       /\ Js.obj_has "apns-collapse-id" h = false.
Proof.
  split; [reflexivity|]. split; [reflexivity|].
  eexists. split; [reflexivity|]. split; reflexivity.
Qed.

(* ----------------------------------------------------------------- *)
(** ** The connection wrapper: the request that is sent *)

Section RequestSent.

Variable rt : Runtime.

(** Whatever comes back, [request] has opened one stream on the session,
    and has changed nothing else. *)
Lemma request_state (path : string) (options : IRequestOptions) (s : State) :
  snd (request rt path options s)
  = {| this := with_stream (this s) (requestStream path options);
       clock := clock s; signed := signed s |}.
Proof.
  unfold request.
  destruct (_responseHeaders rt _ _) as [[[h st]|e|u] events]; try reflexivity.
  destruct (_responseJson rt events); reflexivity.
Qed.

Lemma requestHeaders_pseudo (path : string) (options : IRequestOptions) :
  Js.obj_get HTTP2_HEADER_METHOD (requestHeaders path options)
  = Some (HString (Method_toString (method options)))
  /\ Js.obj_get HTTP2_HEADER_PATH (requestHeaders path options)
     = Some (HString path).
Proof.
  unfold requestHeaders, Js.obj_assign. simpl fold_left. split.
  - rewrite obj_get_set_other by discriminate. apply obj_get_set_same.
  - apply obj_get_set_same.
Qed.

Lemma requestHeaders_other (path : string) (options : IRequestOptions) (k : string) :
  k <> HTTP2_HEADER_METHOD -> k <> HTTP2_HEADER_PATH ->
  Js.obj_get k (requestHeaders path options)
  = Js.obj_get k (Js.obj_assign [] (Js.nullish (headers options) [])).
Proof.
  intros Hm Hp. unfold requestHeaders.
  unfold Js.obj_assign at 1. simpl fold_left.
  rewrite !obj_get_set_other by congruence. reflexivity.
Qed.

(** C6, as the code has it. The headers given to the new stream are a copy
    of the caller's headers in which [:method] and [:path] are then set to
    the method and the path of the call: on these two the wrapper's values
    win over the caller's, and every other header, pseudo-header or not, is
    the caller's. *)
Theorem request_headers_sent (path : string) (options : IRequestOptions) (s : State) :
  exists stream,
    streams (_http2Client (this (snd (request rt path options s))))
    = (streams (_http2Client (this s)) ++ [stream])%list
    /\ Js.obj_get ":method" (sentHeaders stream)
       = Some (HString (Method_toString (method options)))
    /\ Js.obj_get ":path" (sentHeaders stream) = Some (HString path)
    /\ (forall k, k <> ":method" -> k <> ":path" ->
          Js.obj_get k (sentHeaders stream)
          = Js.obj_get k (Js.obj_assign [] (Js.nullish (headers options) [])))
    /\ (forall caller k,
          headers options = Some caller -> NoDup (map fst caller) ->
          k <> ":method" -> k <> ":path" ->
          Js.obj_get k (sentHeaders stream) = Js.obj_get k caller).
Proof.
  exists (requestStream path options).
  rewrite request_state. simpl.
  destruct (requestHeaders_pseudo path options) as [Hmethod Hpath].
  repeat split; auto.
  - intros k Hm Hp. now apply requestHeaders_other.
  - intros caller k Hcaller Hnodup Hm Hp.
    rewrite requestHeaders_other by assumption.
    rewrite Hcaller. simpl. now rewrite obj_copy.
Qed.

End RequestSent.

Lemma request_headers_sent_witness :
  exists stream,
    streams (_http2Client (this (snd (request Example.rt "/b"
                                        Example.callerPseudoHeaders Example.start))))
    = [stream]
    /\ Js.obj_get ":scheme" (sentHeaders stream) = Some (HString "https")
    /\ Js.obj_get "x-id" (sentHeaders stream) = Some (HString "7").
Proof.
  destruct (request_headers_sent Example.rt "/b" Example.callerPseudoHeaders
              Example.start) as (stream & Hstreams & _ & _ & _ & Hcaller).
  exists stream. split; [exact Hstreams|].
  assert (Hnodup : NoDup (map fst [ (":path", HString "/a"); (":method", HString "GET");
                                    (":scheme", HString "https"); ("x-id", HString "7") ])).
  { simpl. repeat constructor; simpl; intuition discriminate. }
  split.
  - rewrite (Hcaller _ ":scheme" eq_refl Hnodup); [reflexivity | discriminate | discriminate].
  - rewrite (Hcaller _ "x-id" eq_refl Hnodup); [reflexivity | discriminate | discriminate].
Defined.

(** C6 as stated fails: this caller sets [:path] to ["/a"] and [:method] to
    ["GET"] in its headers and calls [request] with the path ["/b"] and the
    method [POST]; the stream is given [:path] ["/b"] and [:method]
    ["POST"]. *)
Lemma request_pseudo_headers_counterexample :
  Js.obj_get ":path" (Js.nullish (headers Example.callerPseudoHeaders) [])
  = Some (HString "/a")
  /\ Js.obj_get ":method" (Js.nullish (headers Example.callerPseudoHeaders) [])
     = Some (HString "GET")
  /\ exists stream,
       streams (_http2Client (this (snd (request Example.rt "/b"
                                           Example.callerPseudoHeaders Example.start))))
       = [stream]
       /\ Js.obj_get ":path" (sentHeaders stream) = Some (HString "/b")
       /\ Js.obj_get ":method" (sentHeaders stream) = Some (HString "POST").
Proof.
  split; [reflexivity|]. split; [reflexivity|].
  eexists. split; [reflexivity|]. split; reflexivity.
Qed.

(* ----------------------------------------------------------------- *)
(** ** The connection wrapper: the answer *)

Section Answer.

Variable rt : Runtime.

Lemma bodyWait_chunks (more chunks : list Buffer) (events : list StreamEvent) :
  bodyWait rt chunks (map OnData more ++ events)
  = bodyWait rt (chunks ++ more) events.
Proof.
  revert chunks. induction more as [|c more IH]; intros chunks; simpl.
  - now rewrite app_nil_r.
  - rewrite IH. now rewrite <- app_assoc.
Qed.

(** The chunks are concatenated in the order of their arrival and
    converted when the stream ends. *)
Lemma responseJson_end (chunks : list Buffer) (after : list StreamEvent) :
  _responseJson rt (map OnData chunks ++ OnEnd :: after)
  = match _convertBufferToJson rt (Buffer_concat chunks) with
    | Return v => Fulfilled v
    | Throw e => Unsettled (Some e)
    end.
Proof. unfold _responseJson. now rewrite bodyWait_chunks. Qed.

Lemma trailing_events_end (chunks : list Buffer) (after : list Trailing) :
  map trailing_event (map Chunk chunks ++ Finished :: after)
  = (map OnData chunks ++ OnEnd :: map trailing_event after)%list.
Proof. rewrite map_app, map_map. reflexivity. Qed.

Lemma bodyWait_never_times_out (events : list StreamEvent) (chunks : list Buffer) :
  bodyWait rt chunks events <> Rejected TimedOut.
Proof.
  revert chunks.
  induction events as [|ev more IH]; intros chunks; simpl; [discriminate|].
  destruct ev; auto; try discriminate.
  destruct (_convertBufferToJson rt _); discriminate.
Qed.

(** A 'timeout' event during the body wait (the timer stays set after the
    headers) finds the promise of the header wait settled and has no
    effect. *)
Lemma bodyWait_ignores_timeout (events : list StreamEvent) (chunks : list Buffer) :
  bodyWait rt chunks
    (filter (fun ev => match ev with OnTimeout => false | _ => true end) events)
  = bodyWait rt chunks events.
Proof.
  revert chunks.
  induction events as [|ev more IH]; intros chunks; [reflexivity|].
  destruct ev; simpl; auto.
Qed.

(** Without its 'timeout' listener the header wait is never rejected by a
    timeout, whatever the stream emits. *)
Lemma headerWait_unarmed (events : list StreamEvent) :
  fst (headerWait rt false events) <> Rejected TimedOut.
Proof.
  induction events as [|ev more IH]; simpl; [discriminate|].
  destruct ev; simpl; auto; discriminate.
Qed.

(** An answer that arrives before the timer fires, or with no timer. *)
Lemma responseHeaders_in_time
  (req : ServerStream) (timeout : option Z) (arrival : Z) (a : Answer) :
  answer req = Some (arrival, a) ->
  match armedTimer timeout with Some msecs => arrival < msecs | None => True end ->
  _responseHeaders rt req timeout
  = headerWait rt (match armedTimer timeout with Some _ => true | None => false end)
      (answer_events a (trailing req)).
Proof.
  intros Hanswer Hintime. unfold _responseHeaders, emitted. rewrite Hanswer.
  destruct (armedTimer timeout) as [msecs|]; [|reflexivity].
  apply Z.leb_gt in Hintime. now rewrite Hintime.
Qed.

Lemma headerWait_answer (listener : bool) (a : Answer) (after : list Trailing) :
  headerWait rt listener (answer_events a after)
  = match a with
    | AnswerHeaders h =>
        (Fulfilled (h, Number rt (Js.obj_get HTTP2_HEADER_STATUS h)),
         map trailing_event after)
    | AnswerFailure code => (Rejected (StreamFailure code), [])
    end.
Proof. destruct a; reflexivity. Qed.

(** A silent stream, or an answer that comes when the timer has fired. *)
Lemma responseHeaders_too_late (req : ServerStream) (msecs : Z) :
  msecs <> 0 ->
  (answer req = None
   \/ exists arrival a, answer req = Some (arrival, a) /\ msecs <= arrival) ->
  fst (_responseHeaders rt req (Some msecs)) = Rejected TimedOut.
Proof.
  intros Hnz Hlate. unfold _responseHeaders, armedTimer, Js.truthy_number, emitted.
  apply Z.eqb_neq in Hnz. rewrite Hnz. simpl.
  destruct Hlate as [Hnone | (arrival & a & Hanswer & Hle)].
  - now rewrite Hnone.
  - rewrite Hanswer. apply Z.leb_le in Hle. now rewrite Hle.
Qed.

(** How [request] ends, from its two waits. *)
Lemma request_outcome (path : string) (options : IRequestOptions) (s : State) :
  fst (request rt path options s)
  = match _responseHeaders rt (streamOf rt s) (timeout options) with
    | (Fulfilled (h, st), events) =>
        match _responseJson rt events with
        | Fulfilled b =>
            Fulfilled {| status := st; statusText := getStatusText rt st;
                         responseHeaders := h; responseBody := b |}
        | Rejected e => Rejected e
        | Unsettled u => Unsettled u
        end
    | (Rejected e, _) => Rejected e
    | (Unsettled u, _) => Unsettled u
    end.
Proof.
  unfold request, streamOf. cbv zeta.
  destruct (_responseHeaders rt _ _) as [[[h st]|e|u] events]; try reflexivity.
  destruct (_responseJson rt events); reflexivity.
Qed.

(** Two calls that differ in their timeout only end alike when their header
    waits do. *)
Lemma request_same_wait (path : string) (o1 o2 : IRequestOptions) (s : State) :
  headers o1 = headers o2 -> body o1 = body o2 -> method o1 = method o2 ->
  _responseHeaders rt (streamOf rt s) (timeout o1)
  = _responseHeaders rt (streamOf rt s) (timeout o2) ->
  request rt path o1 s = request rt path o2 s.
Proof.
  intros Hh Hb Hm Hwait.
  rewrite (surjective_pairing (request rt path o1 s)).
  rewrite (surjective_pairing (request rt path o2 s)).
  rewrite !request_outcome, !request_state, Hwait.
  unfold requestStream, requestHeaders. now rewrite Hh, Hb, Hm.
Qed.

Lemma request_rejected_headers
  (path : string) (options : IRequestOptions) (s : State) (e : Reason) :
  fst (_responseHeaders rt (streamOf rt s) (timeout options)) = Rejected e ->
  fst (request rt path options s) = Rejected e.
Proof.
  rewrite request_outcome.
  destruct (_responseHeaders rt _ _) as [[[h st]|e'|u] events]; simpl;
    intros H; try discriminate.
  now injection H as <-.
Qed.

(** C7, on the code. When the headers come in time and the body is
    complete, the chunks are concatenated in the order of their arrival and
    decoded, and [request] ends by the text: an empty text gives an absent
    body; a JSON text gives its value. The third part is where the code
    departs from C7: a text that is not JSON makes [JSON.parse] throw inside
    the 'end' listener, after the listeners were removed and before
    [resolve]; nothing rejects the promise, so the caller of [request] gets
    no error and waits for ever. *)
Theorem request_body_text
  (path : string) (options : IRequestOptions) (s : State)
  (arrival : Z) (h : IncomingHttpHeaders)
  (chunks : list Buffer) (after : list Trailing) :
  streamOf rt s = {| answer := Some (arrival, AnswerHeaders h);
                  trailing := (map Chunk chunks ++ Finished :: after)%list |} ->
  match armedTimer (timeout options) with
  | Some msecs => arrival < msecs
  | None => True
  end ->
  let text := Buffer_toString rt (List.concat chunks) in
  let answered (b : option Json) : Outcome Response :=
    let st := Number rt (Js.obj_get ":status" h) in
    Fulfilled {| status := st; statusText := getStatusText rt st;
                 responseHeaders := h; responseBody := b |} in
  (text = "" -> fst (request rt path options s) = answered None)
  /\ (forall v, text <> "" -> JSON_parse rt text = Some v ->
        fst (request rt path options s) = answered (Some v))
  /\ (text <> "" -> JSON_parse rt text = None ->
        fst (request rt path options s) = Unsettled (Some SyntaxError)
        /\ forall e, fst (request rt path options s) <> Rejected e).
Proof.
  intros Hstream Hintime text answered.
  assert (Hrun :
    fst (request rt path options s)
    = match _convertBufferToJson rt (Buffer_concat chunks) with
      | Return b => answered b
      | Throw e => Unsettled (Some e)
      end).
  { rewrite request_outcome.
    rewrite (responseHeaders_in_time (streamOf rt s) (timeout options) arrival
               (AnswerHeaders h)) by (try rewrite Hstream; auto).
    rewrite headerWait_answer, Hstream. simpl trailing.
    rewrite trailing_events_end, responseJson_end.
    destruct (_convertBufferToJson rt _); reflexivity. }
  rewrite Hrun. unfold _convertBufferToJson, Buffer_concat, Js.truthy_string.
  fold text. split; [|split].
  - intros Hempty. rewrite Hempty. reflexivity.
  - intros v Hne Hparse. apply String.eqb_neq in Hne. now rewrite Hne, Hparse.
  - intros Hne Hparse. apply String.eqb_neq in Hne. rewrite Hne, Hparse.
    simpl. split; [reflexivity | discriminate].
Qed.

(** C8, as the code has it. A call of [request] with a positive timeout:
    when the stream stays silent for that long (nothing ever comes back, or
    the first thing comes back when the time is up), the header wait, and
    [request] with it, is rejected by the 'timeout' listener; when the
    answer comes within the window, the call ends exactly as it does
    without a timeout. *)
Theorem request_timeout
  (path : string) (options : IRequestOptions) (s : State) (msecs : Z) :
  timeout options = Some msecs -> 0 < msecs ->
  ((answer (streamOf rt s) = None
    \/ exists arrival a, answer (streamOf rt s) = Some (arrival, a) /\ msecs <= arrival) ->
   fst (_responseHeaders rt (streamOf rt s) (timeout options)) = Rejected TimedOut
   /\ fst (request rt path options s) = Rejected TimedOut)
  /\ (forall arrival a,
        answer (streamOf rt s) = Some (arrival, a) -> arrival < msecs ->
        request rt path options s = request rt path (noTimeout options) s).
Proof.
  intros Htimeout Hpos. split.
  - intros Hlate.
    assert (Hwait :
      fst (_responseHeaders rt (streamOf rt s) (timeout options)) = Rejected TimedOut).
    { rewrite Htimeout. apply responseHeaders_too_late; [lia | exact Hlate]. }
    split; [exact Hwait | now apply request_rejected_headers].
  - intros arrival a Hanswer Hintime.
    apply request_same_wait; try reflexivity.
    rewrite (responseHeaders_in_time (streamOf rt s) (timeout options) arrival a Hanswer).
    + rewrite (responseHeaders_in_time (streamOf rt s) (timeout (noTimeout options))
                 arrival a Hanswer) by exact I.
      rewrite !headerWait_answer. reflexivity.
    + rewrite Htimeout. unfold armedTimer, Js.truthy_number.
      destruct (msecs =? 0); simpl; auto.
Qed.

(** C10. With a timeout of 0 no timer is set and no 'timeout' listener is
    registered: the header wait runs as it does without a timeout and is
    never rejected by a timeout, whatever the stream does, and so is
    [request]. *)
Theorem request_zero_timeout :
  armedTimer (Some 0) = None
  /\ (forall req,
         _responseHeaders rt req (Some 0) = _responseHeaders rt req None
         /\ fst (_responseHeaders rt req (Some 0)) <> Rejected TimedOut)
  /\ (forall path options s,
         timeout options = Some 0 ->
         request rt path options s = request rt path (noTimeout options) s
         /\ fst (request rt path options s) <> Rejected TimedOut).
Proof.
  split; [reflexivity|]. split.
  - intros req. split; [reflexivity|].
    unfold _responseHeaders. simpl. apply headerWait_unarmed.
  - intros path options s Hzero. split.
    + apply request_same_wait; try reflexivity. now rewrite Hzero.
    + rewrite request_outcome, Hzero.
      pose proof (headerWait_unarmed (emitted None (streamOf rt s))) as Hwait.
      unfold _responseHeaders. simpl armedTimer. cbv iota zeta.
      destruct (headerWait rt false (emitted None (streamOf rt s)))
        as [[[h st]|e|u] events]; simpl in *.
      * pose proof (bodyWait_never_times_out events []) as Hbody.
        unfold _responseJson.
        destruct (bodyWait rt [] events); simpl; congruence.
      * congruence.
      * discriminate.
Qed.

End Answer.

(** The three kinds of body on the first three streams of the example
    server: none, a JSON text in two chunks, and a text that is not JSON. *)
Lemma request_body_text_witness :
  fst (request Example.rt "/3/device/a1b2" (Example.withTimeout None)
         (Example.after_streams 0))
  = Fulfilled {| status := Some 200; statusText := "OK";
                 responseHeaders := [(":status", "200")];
                 responseBody := None |}
  /\ fst (request Example.rt "/3/device/a1b2" (Example.withTimeout None)
            (Example.after_streams 1))
     = Fulfilled {| status := Some 410; statusText := "Gone";
                    responseHeaders := [(":status", "410")];
                    responseBody := Some (JArray [JNumber 410]) |}
  /\ streamOf Example.rt (Example.after_streams 2)
     = {| answer := Some (30, AnswerHeaders [(":status", "200")]);
          trailing := [Chunk (Example.bytes "<html>"); Finished] |}
  /\ Buffer_toString Example.rt (Example.bytes "<html>") = "<html>"
  /\ JSON_parse Example.rt "<html>" = None
  /\ fst (request Example.rt "/3/device/a1b2" (Example.withTimeout None)
            (Example.after_streams 2))
     = Unsettled (Some SyntaxError).
Proof.
  split; [|split].
  - destruct (request_body_text Example.rt "/3/device/a1b2" (Example.withTimeout None)
                (Example.after_streams 0) 20 [(":status", "200")] [] []
                eq_refl I) as (Hempty & _).
    apply Hempty. reflexivity.
  - destruct (request_body_text Example.rt "/3/device/a1b2" (Example.withTimeout None)
                (Example.after_streams 1) 30 [(":status", "410")]
                [Example.bytes "[41"; Example.bytes "0]"] [] eq_refl I)
      as (_ & Hjson & _).
    apply Hjson; [discriminate | reflexivity].
  - split; [reflexivity|]. split; [reflexivity|]. split; [reflexivity|].
    destruct (request_body_text Example.rt "/3/device/a1b2" (Example.withTimeout None)
                (Example.after_streams 2) 30 [(":status", "200")]
                [Example.bytes "<html>"] [] eq_refl I) as (_ & _ & Hbad).
    apply Hbad; [discriminate | reflexivity].
Defined.

Lemma request_timeout_witness :
  fst (request Example.rt "/3/device/a1b2" (Example.withTimeout (Some 10))
         (Example.after_streams 0))
  = Rejected TimedOut
  /\ fst (request Example.rt "/3/device/a1b2" (Example.withTimeout (Some 10))
            (Example.after_streams 4))
     = Rejected TimedOut
  /\ request Example.rt "/3/device/a1b2" (Example.withTimeout (Some 21))
       (Example.after_streams 0)
     = request Example.rt "/3/device/a1b2" (Example.withTimeout None)
         (Example.after_streams 0).
Proof.
  split; [|split].
  - destruct (request_timeout Example.rt "/3/device/a1b2"
                (Example.withTimeout (Some 10)) (Example.after_streams 0) 10
                eq_refl eq_refl) as (Hlate & _).
    apply Hlate. right. exists 20, (AnswerHeaders [(":status", "200")]).
    split; [reflexivity | discriminate].
  - destruct (request_timeout Example.rt "/3/device/a1b2"
                (Example.withTimeout (Some 10)) (Example.after_streams 4) 10
                eq_refl eq_refl) as (Hlate & _).
    apply Hlate. left. reflexivity.
  - destruct (request_timeout Example.rt "/3/device/a1b2"
                (Example.withTimeout (Some 21)) (Example.after_streams 0) 21
                eq_refl eq_refl) as (_ & Hintime).
    apply (Hintime 20 (AnswerHeaders [(":status", "200")])); reflexivity.
Defined.

(** C8 as stated fails: this call supplies a timeout, of 0 ms, and no
    response headers arrive within it, nor ever; the header wait is not
    rejected, it never settles, and neither does [request]. *)
Lemma request_timeout_zero_counterexample :
  timeout (Example.withTimeout (Some 0)) = Some 0
  /\ answer (streamOf Example.rt (Example.after_streams 4)) = None
  /\ fst (_responseHeaders Example.rt (streamOf Example.rt (Example.after_streams 4))
            (timeout (Example.withTimeout (Some 0))))
     = Unsettled None
  /\ fst (request Example.rt "/3/device/a1b2" (Example.withTimeout (Some 0))
            (Example.after_streams 4))
     = Unsettled None.
Proof. repeat split. Qed.

(** A stream that fails within the window: no response headers arrive, and
    the header wait is rejected with the stream's error, not by the
    timeout. *)
Lemma request_timeout_stream_error :
  fst (request Example.rt "/3/device/a1b2" (Example.withTimeout (Some 10))
         (Example.after_streams 3))
  = Rejected (StreamFailure "ECONNRESET").
Proof. reflexivity. Qed.

Lemma request_zero_timeout_witness :
  fst (request Example.rt "/3/device/a1b2" (Example.withTimeout (Some 0))
         (Example.after_streams 0))
  = fst (request Example.rt "/3/device/a1b2" (Example.withTimeout None)
           (Example.after_streams 0)).
Proof.
  destruct (request_zero_timeout Example.rt) as (_ & _ & Hrequest).
  destruct (Hrequest "/3/device/a1b2" (Example.withTimeout (Some 0))
              (Example.after_streams 0) eq_refl) as (Hsame & _).
  now rewrite Hsame.
Defined.

(* ----------------------------------------------------------------- *)
(** ** Batches *)

Section ArrayFacts.

Context {A B : Type}.
Variable f : A -> State -> B * State.

Lemma Array_map_cons (a : A) (l : list A) (s : State) :
  Array_map f (a :: l) s
  = (fst (f a s) :: fst (Array_map f l (snd (f a s))),
     snd (Array_map f l (snd (f a s)))).
Proof.
  simpl. destruct (f a s) as [b s1]. simpl.
  destruct (Array_map f l s1) as [bs s2]. reflexivity.
Qed.

Lemma Array_map_length (l : list A) (s : State) :
  length (fst (Array_map f l s)) = length l.
Proof.
  revert s. induction l as [|a l IH]; intros s; [reflexivity|].
  rewrite Array_map_cons. simpl. now rewrite IH.
Qed.

(** The element number [i] is the result of [f] on the input number [i],
    in the state the elements before it have left. *)
Lemma Array_map_nth (l : list A) (s : State) (i : nat) (a : A) :
  nth_error l i = Some a ->
  nth_error (fst (Array_map f l s)) i
  = Some (fst (f a (snd (Array_map f (firstn i l) s)))).
Proof.
  revert s i. induction l as [|x l IH]; intros s i Hnth.
  - destruct i; discriminate.
  - destruct i as [|i].
    + injection Hnth as ->. rewrite Array_map_cons. reflexivity.
    + rewrite Array_map_cons. simpl nth_error. simpl firstn.
      rewrite Array_map_cons. simpl snd. now apply IH.
Qed.

End ArrayFacts.

Section PromiseFacts.

Context {A B : Type}.
Variable f : Reason -> B.

Lemma first_rejection_caught (os : list (Outcome A)) :
  first_rejection (map (caught f) os) = None.
Proof.
  induction os as [|o os IH]; [reflexivity|].
  destruct o; simpl; exact IH.
Qed.

Lemma all_fulfilled_length {C : Type} (ps : list (Outcome C)) (values : list C) :
  all_fulfilled ps = Some values -> length values = length ps.
Proof.
  revert values. induction ps as [|p ps IH]; intros values; simpl.
  - intros H. now injection H as <-.
  - destruct p; try discriminate.
    destruct (all_fulfilled ps) as [l|]; [|discriminate].
    intros H. injection H as <-. simpl. now rewrite (IH l).
Qed.

(** [promise.catch(f)] moves the state as [promise] does. *)
Lemma Array_map_catch {N : Type} (p : N -> Async A) (l : list N) (s : State) :
  Array_map (fun n => catch (p n) f) l s
  = (map (caught f) (fst (Array_map p l s)), snd (Array_map p l s)).
Proof.
  revert s. induction l as [|n l IH]; intros s; [reflexivity|].
  assert (Hcatch : catch (p n) f s = (caught f (fst (p n s)), snd (p n s)))
    by (unfold catch; destruct (p n s); reflexivity).
  rewrite (Array_map_cons (fun n => catch (p n) f)), (Array_map_cons p).
  rewrite Hcatch. simpl. now rewrite IH.
Qed.

End PromiseFacts.

Section SendMany.

Variable rt : Runtime.

Lemma all_fulfilled_caught (os : list (Outcome Response)) :
  forallb settled os = true ->
  exists results,
    all_fulfilled (map (caught (fun e => {| error := e |})) os) = Some results
    /\ Forall2 captures os results.
Proof.
  induction os as [|o os IH]; simpl; intros Hsettled.
  - exists []. split; [reflexivity | constructor].
  - apply andb_true_iff in Hsettled. destruct Hsettled as [Ho Hos].
    destruct (IH Hos) as (results & Hall & Hcap). rewrite Hall.
    destruct o as [a|e|u]; [| |discriminate].
    + exists (inl a :: results). split; [reflexivity|].
      constructor; [reflexivity | assumption].
    + exists (inr {| error := e |} :: results). split; [reflexivity|].
      constructor; [reflexivity | assumption].
Qed.

Lemma sendMany_run (ns : list Notification) (s : State) :
  sendMany rt ns s
  = (Promise_all (map (caught (fun e => {| error := e |}))
                      (fst (Array_map (_push rt) ns s))),
     snd (Array_map (_push rt) ns s)).
Proof. unfold sendMany. now rewrite Array_map_catch. Qed.

(** The synchronous part of a call leaves the session alone. *)
Lemma getSigningToken_session (s : State) :
  _http2Client (this (snd (_getSigningToken rt s))) = _http2Client (this s).
Proof.
  destruct (_token (this s)) as [tok|] eqn:Htok.
  - destruct (Z.lt_ge_cases (Date_now rt (clock s) - timestamp tok)
                RESET_TOKEN_INTERVAL_MS) as [Hyoung | Hold].
    + now rewrite (getSigningToken_young rt s tok Htok Hyoung).
    + rewrite (getSigningToken_old rt s tok Htok Hold), signNewToken_run.
      destruct (sign rt _ _ _); reflexivity.
  - rewrite (getSigningToken_absent rt s Htok), signNewToken_run.
    destruct (sign rt _ _ _); reflexivity.
Qed.

Lemma buildHeaders_session (n : Notification) (s : State) :
  _http2Client (this (snd (_buildHeaders rt n s))) = _http2Client (this s).
Proof.
  unfold _buildHeaders, bind, get_this, ret.
  pose proof (getSigningToken_session s) as Hsession.
  destruct (_getSigningToken rt s) as [[token|e] s1]; simpl in *; auto.
  unfold _getPath. destruct (negb _); simpl; auto.
Qed.

(** The state a send leaves does not depend on the server, and its outcome
    depends on the server through its own stream only. *)
Lemma push_state_server (f : nat -> ServerStream) (n : Notification) (s : State) :
  snd (_push (with_server rt f) n s) = snd (_push rt n s).
Proof.
  unfold _push, async, bind.
  change (_buildHeaders (with_server rt f) n) with (_buildHeaders rt n).
  destruct (_getPath (deviceToken n) s) as [[p|e] s1]; [|reflexivity].
  destruct (_buildHeaders rt n s1) as [[h|e] s2]; [|reflexivity].
  unfold ret. now rewrite !request_state.
Qed.

Lemma push_outcome_server (f : nat -> ServerStream) (n : Notification) (s : State) :
  f (length (streams (_http2Client (this s)))) = streamOf rt s ->
  fst (_push (with_server rt f) n s) = fst (_push rt n s).
Proof.
  intros Hstream.
  unfold _push, async, bind.
  change (_buildHeaders (with_server rt f) n) with (_buildHeaders rt n).
  unfold _getPath. destruct (negb _); [reflexivity|]. unfold ret at 1 3.
  pose proof (buildHeaders_session n s) as Hsession.
  destruct (_buildHeaders rt n s) as [[h|e] s2]; [|reflexivity].
  simpl in Hsession. unfold ret.
  rewrite !request_outcome. unfold streamOf in *. simpl server.
  rewrite Hsession, Hstream. reflexivity.
Qed.

Lemma Array_map_push_state_server
  (f : nat -> ServerStream) (ns : list Notification) (s : State) :
  snd (Array_map (_push (with_server rt f)) ns s)
  = snd (Array_map (_push rt) ns s).
Proof.
  revert s. induction ns as [|n ns IH]; intros s; [reflexivity|].
  rewrite !Array_map_cons. simpl. now rewrite push_state_server, IH.
Qed.

Lemma all_fulfilled_captures
  (os : list (Outcome Response)) (results : list (Response + Captured)) :
  all_fulfilled (map (caught (fun e => {| error := e |})) os) = Some results
  <-> Forall2 captures os results.
Proof.
  split.
  - revert results. induction os as [|o os IH]; intros results; simpl.
    + intros H. injection H as <-. constructor.
    + destruct o as [a|e|u]; simpl; try discriminate;
        (destruct (all_fulfilled _) as [l|]; [|discriminate]);
        intros H; injection H as <-;
        (constructor; [reflexivity | now apply IH]).
  - induction 1 as [|o r os rs Hcap _ IH]; [reflexivity|].
    simpl. destruct o as [a|e|u], r as [a'|[e']]; simpl in Hcap;
      try contradiction; subst; simpl; now rewrite IH.
Qed.

Lemma all_fulfilled_pending (os : list (Outcome Response)) :
  forallb settled os = false ->
  all_fulfilled (map (caught (fun e => {| error := e |})) os) = None.
Proof.
  induction os as [|o os IH]; simpl; [discriminate|].
  destruct o as [a|e|u]; simpl; intros H; auto; now rewrite IH.
Qed.

Lemma first_uncaught_caught (os : list (Outcome Response)) :
  first_uncaught (map (caught (fun e => {| error := e |})) os)
  = first_uncaught os.
Proof.
  induction os as [|o os IH]; [reflexivity|].
  destruct o as [a|e|[e|]]; simpl; auto.
Qed.

Lemma captures_length
  (os : list (Outcome Response)) (results : list (Response + Captured)) :
  Forall2 captures os results -> length results = length os.
Proof. induction 1; simpl; auto. Qed.

(** C4, on the code. [sendMany] on any list: the sends are made in the
    order of the list, each in the state the ones before it have left, and
    the promise returned is never rejected. What it ends as is fixed by the
    outcomes of the sends: it is fulfilled with [results] exactly when
    [results] holds, in order, the response of every fulfilled send and
    [{ error }] with the reason of every rejected one, and such a list is
    as long as the input; and while one send stays unsettled so does the
    batch, which then returns no list at all. That is where the code leaves
    C4: a send whose answer is not JSON never settles (C7), and the batch
    with it. The outcome of a send is not altered by what happens to the
    others: it is the same under any server that treats its own stream
    alike. *)
Theorem sendMany_outcomes (ns : list Notification) (s : State) :
  let outcomes := fst (Array_map (_push rt) ns s) in
  length outcomes = length ns
  /\ (forall i n,
         nth_error ns i = Some n ->
         nth_error outcomes i
         = Some (fst (_push rt n (snd (Array_map (_push rt) (firstn i ns) s)))))
  /\ (forall e, fst (sendMany rt ns s) <> Rejected e)
  /\ (forall results,
         fst (sendMany rt ns s) = Fulfilled results
         <-> Forall2 captures outcomes results)
  /\ (forall results,
         Forall2 captures outcomes results -> length results = length ns)
  /\ (forallb settled outcomes = true ->
      exists results, fst (sendMany rt ns s) = Fulfilled results)
  /\ (forallb settled outcomes = false ->
      fst (sendMany rt ns s) = Unsettled (first_uncaught outcomes))
  /\ (forall f i n,
         nth_error ns i = Some n ->
         let before := snd (Array_map (_push rt) (firstn i ns) s) in
         f (length (streams (_http2Client (this before)))) = streamOf rt before ->
         nth_error (fst (Array_map (_push (with_server rt f)) ns s)) i
         = nth_error outcomes i).
Proof.
  cbv zeta. split; [apply Array_map_length|].
  split; [intros i n Hnth; now apply Array_map_nth|].
  rewrite sendMany_run. simpl fst. unfold Promise_all.
  rewrite first_rejection_caught, first_uncaught_caught.
  split; [|split; [|split; [|split; [|split]]]].
  - intros e. destruct (all_fulfilled _); discriminate.
  - intros results. rewrite <- all_fulfilled_captures.
    destruct (all_fulfilled _) as [l|]; split; intros H;
      try discriminate; [now injection H as <- | now injection H as <-].
  - intros results Hcap.
    rewrite (captures_length _ _ Hcap). apply Array_map_length.
  - intros Hsettled.
    destruct (all_fulfilled_caught _ Hsettled) as (results & Hall & _).
    exists results. now rewrite Hall.
  - intros Hpending. now rewrite (all_fulfilled_pending _ Hpending).
  - intros f i n Hnth Hstream.
    rewrite (Array_map_nth _ ns s i n Hnth).
    rewrite (Array_map_nth _ ns s i n Hnth).
    rewrite Array_map_push_state_server.
    f_equal. now apply push_outcome_server.
Qed.

End SendMany.

(** The example batch, whose second notification has no device token, on
    a new client (streams 0 and 1: the batch is fulfilled), and on a client
    one stream later (streams 1 and 2: the answer on stream 2 is not JSON,
    the third send never settles and neither does the batch). *)
Lemma sendMany_outcomes_witness :
  fst (sendMany Example.rt Example.batch Example.start)
  = Fulfilled
      [ inl {| status := Some 200; statusText := "OK";
               responseHeaders := [(":status", "200")];
               responseBody := None |};
        inr {| error := Error "Device token is required" |};
        inl {| status := Some 410; statusText := "Gone";
               responseHeaders := [(":status", "410")];
               responseBody := Some (JArray [JNumber 410]) |} ]
  /\ fst (Array_map (_push Example.rt) Example.batch (Example.after_streams 1))
     = [ Fulfilled {| status := Some 410; statusText := "Gone";
                      responseHeaders := [(":status", "410")];
                      responseBody := Some (JArray [JNumber 410]) |};
         Rejected (Error "Device token is required");
         Unsettled (Some SyntaxError) ]
  /\ fst (sendMany Example.rt Example.batch (Example.after_streams 1))
     = Unsettled (Some SyntaxError).
Proof.
  split; [|split].
  - destruct (sendMany_outcomes Example.rt Example.batch Example.start)
      as (_ & _ & _ & Hfulfilled & _).
    apply Hfulfilled. repeat constructor.
  - reflexivity.
  - destruct (sendMany_outcomes Example.rt Example.batch (Example.after_streams 1))
      as (_ & _ & _ & _ & _ & _ & Hpending & _).
    exact (Hpending eq_refl).
Defined.

(* ================================================================= *)
(** * Further properties of the code *)

(* ----------------------------------------------------------------- *)
(** ** What a send puts on the wire *)

Section Sends.

Variable rt : Runtime.

Lemma obj_set_same_value {V : Type} (k : string) (v : V) (o : Js.object V) :
  Js.obj_get k o = Some v -> Js.obj_set k v o = o.
Proof.
  induction o as [|[k' v'] rest IH]; simpl; [discriminate|].
  destruct (k' =? k)%string eqn:E.
  - intros H. injection H as ->. reflexivity.
  - intros H. now rewrite IH.
Qed.

(** The topic [_buildHeaders] writes. *)
Let topicOf (n : Notification) (c : ApnsClient) : HeaderValue :=
  match option_of n topic with
  | Some t => HString t
  | None => match defaultTopic c with Some t => HString t | None => HUndefined end
  end.

Ltac by_options n :=
  destruct (option_of n expiration) as [e|];
    [destruct (truthy_expiration e)|];
  (destruct (option_of n collapseId) as [c|];
    [destruct (Js.truthy_string c)|]).

(** The headers [_buildHeaders] returns, field by field. *)
Lemma buildHeaders_shape (n : Notification) (s s' : State) (h : Headers) :
  _buildHeaders rt n s = (Return h, s') ->
  exists token,
    _getSigningToken rt s = (Return token, s')
    /\ deviceToken n <> ""
    /\ NoDup (map fst h)
    /\ Js.obj_get "authorization" h = Some (HString ("bearer " ++ token))
    /\ Js.obj_get "apns-topic" h = Some (topicOf n (this s'))
    /\ Js.obj_get ":method" h = Some (HString "POST")
    /\ Js.obj_get ":scheme" h = Some (HString "https")
    /\ Js.obj_get ":path" h
       = Some (HString (Path.join ["/3"; "device"; deviceToken n])).
Proof.
  unfold _buildHeaders, bind, get_this, ret, _getPath, throw.
  destruct (_getSigningToken rt s) as [[token|err] s1]; [|discriminate].
  destruct (Js.truthy_string (deviceToken n)) eqn:Htruthy; simpl; [|discriminate].
  intros Hrun. injection Hrun as <- <-.
  exists token. split; [reflexivity|]. split.
  { intros Hempty. rewrite Hempty in Htruthy. discriminate. }
  unfold topicOf.
  by_options n;
    (split; [simpl; repeat constructor; simpl; intuition discriminate
            | repeat split ]).
Qed.

(** The wrapper leaves the headers of the client as they are: [:method]
    and [:path] already hold what it writes. *)
Lemma requestHeaders_of_client (n : Notification) (s s' : State) (h : Headers)
  (b : option string) :
  _buildHeaders rt n s = (Return h, s') ->
  requestHeaders (Path.join ["/3"; "device"; deviceToken n])
    {| headers := Some h; body := b; method := POST; timeout := None |}
  = h.
Proof.
  intros Hbuild.
  destruct (buildHeaders_shape n s s' h Hbuild)
    as (token & _ & _ & Hnodup & _ & _ & Hmethod & _ & Hpath).
  unfold requestHeaders. simpl Js.nullish. rewrite (obj_copy h Hnodup).
  unfold Js.obj_assign. simpl fold_left.
  unfold HTTP2_HEADER_METHOD, HTTP2_HEADER_PATH.
  rewrite (obj_set_same_value ":method" _ h Hmethod).
  now rewrite (obj_set_same_value ":path" _ h Hpath).
Qed.

(** A send whose headers are built: what it leaves. *)
Lemma push_sends (n : Notification) (s s1 : State) (h : Headers) :
  _buildHeaders rt n s = (Return h, s1) ->
  snd (_push rt n s)
  = {| this :=
         with_stream (this s1)
           {| sentHeaders := h;
              endStream := negb (Js.truthy_string (JSON_stringify rt (buildApnsOptions n)));
              written := if Js.truthy_string (JSON_stringify rt (buildApnsOptions n))
                         then [JSON_stringify rt (buildApnsOptions n)] else [];
              ended := true |};
       clock := clock s1; signed := signed s1 |}.
Proof.
  intros Hbuild.
  destruct (buildHeaders_shape n s s1 h Hbuild) as (token & _ & Hne & _).
  unfold _push, async, bind.
  rewrite (getPath_nonempty _ s Hne), Hbuild. unfold ret. simpl fst. simpl snd.
  rewrite request_state. unfold requestStream.
  rewrite (requestHeaders_of_client n s s1 h _ Hbuild). reflexivity.
Qed.

(** A send whose headers are not built: the exception rejects it and no
    stream is opened. *)
Lemma push_throws (n : Notification) (s s1 : State) (e : Reason) :
  deviceToken n <> "" ->
  _buildHeaders rt n s = (Throw e, s1) ->
  _push rt n s = (Rejected e, s1).
Proof.
  intros Hne Hbuild. unfold _push, async, bind.
  now rewrite (getPath_nonempty _ s Hne), Hbuild.
Qed.

(** The stream of a send. When [_buildHeaders] returns, [send] opens one
    stream, whatever the answer will be; the stream is given the headers of
    [_buildHeaders] exactly (the wrapper's [:method] and [:path] are the
    ones the client wrote); the payload text is written unless it is empty,
    and the stream is ended. *)
Theorem send_stream (n : Notification) (s s1 : State) (h : Headers) :
  _buildHeaders rt n s = (Return h, s1) ->
  let text := JSON_stringify rt (buildApnsOptions n) in
  streams (_http2Client (this (snd (send rt n s))))
  = (streams (_http2Client (this s))
     ++ [ {| sentHeaders := h;
             endStream := negb (Js.truthy_string text);
             written := if Js.truthy_string text then [text] else [];
             ended := true |} ])%list
  /\ _token (this (snd (send rt n s))) = _token (this s1)
  /\ clock (snd (send rt n s)) = clock s1
  /\ signed (snd (send rt n s)) = signed s1.
Proof.
  intros Hbuild text. unfold send. rewrite (push_sends n s s1 h Hbuild).
  simpl. rewrite <- (buildHeaders_session rt n s), Hbuild. auto.
Qed.

(** The headers of a notification beyond the APNs ones. In the headers
    [_buildHeaders] returns every name occurs once; [authorization] is
    ["bearer "] and the value of the token that is cached when the call
    returns; [:method], [:scheme] and [:path] are [POST], [https] and the
    path of the device token; [apns-topic] is always there: it is the topic
    of the notification when one is set, be it the empty string, else the
    default topic of the client, else [undefined]. *)
Theorem buildHeaders_contents (n : Notification) (s s' : State) (h : Headers) :
  _buildHeaders rt n s = (Return h, s') ->
  NoDup (map fst h)
  /\ (exists tok,
        _token (this s') = Some tok
        /\ Js.obj_get "authorization" h = Some (HString ("bearer " ++ value tok)))
  /\ Js.obj_get ":method" h = Some (HString "POST")
  /\ Js.obj_get ":scheme" h = Some (HString "https")
  /\ (exists p, _getPath (deviceToken n) s' = (Return p, s')
                /\ Js.obj_get ":path" h = Some (HString p))
  /\ Js.obj_get "apns-topic" h
     = Some match option_of n topic with
            | Some t => HString t
            | None => match defaultTopic (this s) with
                      | Some t => HString t
                      | None => HUndefined
                      end
            end.
Proof.
  intros Hbuild.
  destruct (buildHeaders_shape n s s' h Hbuild)
    as (token & Htoken & Hne & Hnodup & Hauth & Htopic & Hmethod & Hscheme & Hpath).
  destruct (getSigningToken_caches rt s s' token Htoken) as (tok & Hcached & Hvalue).
  split; [assumption|]. split.
  { exists tok. split; [assumption|]. now rewrite Hvalue. }
  split; [assumption|]. split; [assumption|]. split.
  { eexists. split; [apply (getPath_nonempty _ s' Hne) | assumption]. }
  rewrite Htopic. unfold topicOf.
  assert (Hdefault : defaultTopic (this s') = defaultTopic (this s)).
  { clear - Htoken. destruct (_token (this s)) as [t0|] eqn:Ht.
    - destruct (Z.lt_ge_cases (Date_now rt (clock s) - timestamp t0)
                  RESET_TOKEN_INTERVAL_MS) as [Hy | Ho].
      + rewrite (getSigningToken_young rt s t0 Ht Hy) in Htoken.
        now injection Htoken as _ <-.
      + rewrite (getSigningToken_old rt s t0 Ht Ho), signNewToken_run in Htoken.
        destruct (sign rt _ _ _); injection Htoken as _ <-; reflexivity.
    - rewrite (getSigningToken_absent rt s Ht), signNewToken_run in Htoken.
      destruct (sign rt _ _ _); injection Htoken as _ <-; reflexivity. }
  now rewrite Hdefault.
Qed.

(** A signer that throws. When [_getSigningToken] throws [e] for a
    notification with a device token, [send] is rejected with [e]; no
    stream is opened and the cache is left as it was, so the next send
    calls [sign] anew. *)
Theorem send_sign_failure (n : Notification) (s : State) (e : Reason) :
  deviceToken n <> "" ->
  fst (_getSigningToken rt s) = Throw e ->
  fst (send rt n s) = Rejected e
  /\ streams (_http2Client (this (snd (send rt n s))))
     = streams (_http2Client (this s))
  /\ _token (this (snd (send rt n s))) = _token (this s)
  /\ length (signed (snd (send rt n s))) = S (length (signed s)).
Proof.
  intros Hne Hthrow.
  assert (Hrun : exists s1,
    _getSigningToken rt s = (Throw e, s1)
    /\ _http2Client (this s1) = _http2Client (this s)
    /\ _token (this s1) = _token (this s)
    /\ length (signed s1) = S (length (signed s))).
  { destruct (_token (this s)) as [t0|] eqn:Ht.
    - destruct (Z.lt_ge_cases (Date_now rt (clock s) - timestamp t0)
                  RESET_TOKEN_INTERVAL_MS) as [Hy | Ho].
      + rewrite (getSigningToken_young rt s t0 Ht Hy) in Hthrow. discriminate.
      + rewrite (getSigningToken_old rt s t0 Ht Ho), signNewToken_run in *.
        destruct (sign rt _ _ _); simpl in Hthrow; [discriminate|].
        injection Hthrow as ->. eexists. split; [reflexivity|]. simpl.
        rewrite length_app. simpl. repeat split; auto. lia.
    - rewrite (getSigningToken_absent rt s Ht), signNewToken_run in *.
      destruct (sign rt _ _ _); simpl in Hthrow; [discriminate|].
      injection Hthrow as ->. eexists. split; [reflexivity|]. simpl.
      rewrite length_app, Ht. simpl. repeat split; auto. lia. }
  destruct Hrun as (s1 & Hsign & Hsession & Htoken & Hsigned).
  assert (Hbuild : _buildHeaders rt n s = (Throw e, s1)).
  { unfold _buildHeaders, bind. now rewrite Hsign. }
  unfold send. rewrite (push_throws n s s1 e Hne Hbuild). simpl.
  rewrite Hsession, Htoken, Hsigned. auto.
Qed.

End Sends.

Lemma send_stream_witness :
  match _buildHeaders Example.rt Example.withOptions Example.start with
  | (Return h, _) =>
      streams (_http2Client
                 (this (snd (send Example.rt Example.withOptions Example.start))))
      = [ {| sentHeaders := h; endStream := false; written := ["{}"];
             ended := true |} ]
  | (Throw _, _) => False
  end.
Proof.
  destruct (_buildHeaders Example.rt Example.withOptions Example.start)
    as [[h|e] s1] eqn:Hrun; [|vm_compute in Hrun; discriminate].
  destruct (send_stream Example.rt Example.withOptions Example.start s1 h Hrun)
    as (Hstreams & _).
  exact Hstreams.
Defined.

Lemma buildHeaders_contents_witness :
  match _buildHeaders Example.rt (Example.notification "a1b2" None) Example.start with
  | (Return h, _) =>
      Js.obj_get "authorization" h = Some (HString "bearer KID.TEAM.0")
      /\ Js.obj_get "apns-topic" h = Some (HString "com.example.app")
  | (Throw _, _) => False
  end.
Proof.
  destruct (_buildHeaders Example.rt (Example.notification "a1b2" None) Example.start)
    as [[h|e] s1] eqn:Hrun; [|vm_compute in Hrun; discriminate].
  destruct (buildHeaders_contents Example.rt (Example.notification "a1b2" None)
              Example.start s1 h Hrun)
    as (_ & (tok & Hcached & Hauth) & _ & _ & _ & Htopic).
  split; [|exact Htopic].
  vm_compute in Hrun. injection Hrun as _ Hs1. rewrite <- Hs1 in Hcached.
  injection Hcached as <-. exact Hauth.
Defined.

Lemma send_sign_failure_witness :
  fst (send Example.keyless (Example.notification "a1b2" None) Example.start)
  = Rejected (SignFailure "secretOrPrivateKey must be an asymmetric key")
  /\ streams (_http2Client
                (this (snd (send Example.keyless (Example.notification "a1b2" None)
                              Example.start))))
     = [].
Proof.
  assert (Hne : deviceToken (Example.notification "a1b2" None) <> "") by discriminate.
  destruct (send_sign_failure Example.keyless (Example.notification "a1b2" None)
              Example.start _ Hne eq_refl) as (Hrejected & Hstreams & _).
  split; [exact Hrejected | exact Hstreams].
Defined.

(* ----------------------------------------------------------------- *)
(** ** Errors and bodies on the stream *)

Section Streams.

Variable rt : Runtime.

(** The headers are there before the timer fires, or there is no timer. *)
Let inTime (options : IRequestOptions) (arrival : Z) : Prop :=
  match armedTimer (timeout options) with
  | Some msecs => arrival < msecs
  | None => True
  end.

Lemma trailing_events_failed (chunks : list Buffer) (code : string)
  (after : list Trailing) :
  map trailing_event (map Chunk chunks ++ Failed code :: after)
  = (map OnData chunks ++ OnError code :: map trailing_event after)%list.
Proof. rewrite map_app, map_map. reflexivity. Qed.

(** [request] once the headers are there in time: the body wait decides. *)
Lemma request_after_headers
  (path : string) (options : IRequestOptions) (s : State)
  (arrival : Z) (h : IncomingHttpHeaders) (after : list Trailing) :
  streamOf rt s = {| answer := Some (arrival, AnswerHeaders h); trailing := after |} ->
  inTime options arrival ->
  fst (request rt path options s)
  = match _responseJson rt (map trailing_event after) with
    | Fulfilled b =>
        Fulfilled {| status := Number rt (Js.obj_get HTTP2_HEADER_STATUS h);
                     statusText :=
                       getStatusText rt (Number rt (Js.obj_get HTTP2_HEADER_STATUS h));
                     responseHeaders := h; responseBody := b |}
    | Rejected e => Rejected e
    | Unsettled u => Unsettled u
    end.
Proof.
  intros Hstream Hintime. rewrite request_outcome.
  rewrite (responseHeaders_in_time rt (streamOf rt s) (timeout options) arrival
             (AnswerHeaders h)) by (try rewrite Hstream; auto).
  rewrite headerWait_answer, Hstream. reflexivity.
Qed.

(** Errors of the stream. An error that is the first thing to come back
    (before the timer fires, if one is set) rejects [request] with that
    error; so does an error that comes after the headers, while the body is
    read: the chunks read before it are dropped, and what follows it does
    not matter. *)
Theorem request_stream_error
  (path : string) (options : IRequestOptions) (s : State) (code : string) :
  (forall arrival after,
      streamOf rt s = {| answer := Some (arrival, AnswerFailure code);
                         trailing := after |} ->
      match armedTimer (timeout options) with
      | Some msecs => arrival < msecs
      | None => True
      end ->
      fst (request rt path options s) = Rejected (StreamFailure code))
  /\ (forall arrival h chunks after,
         streamOf rt s = {| answer := Some (arrival, AnswerHeaders h);
                            trailing := (map Chunk chunks ++ Failed code :: after)%list |} ->
         match armedTimer (timeout options) with
         | Some msecs => arrival < msecs
         | None => True
         end ->
         fst (request rt path options s) = Rejected (StreamFailure code)).
Proof.
  split.
  - intros arrival after Hstream Hintime. rewrite request_outcome.
    rewrite (responseHeaders_in_time rt (streamOf rt s) (timeout options) arrival
               (AnswerFailure code)) by (try rewrite Hstream; auto).
    now rewrite headerWait_answer.
  - intros arrival h chunks after Hstream Hintime.
    rewrite (request_after_headers path options s arrival h _ Hstream Hintime).
    rewrite trailing_events_failed. unfold _responseJson.
    now rewrite bodyWait_chunks.
Qed.

(** The timeout covers the wait for the headers only. Once the headers are
    there in time, [request] is never rejected by the timeout, whatever
    follows, and a stream that sends chunks and never ends leaves [request]
    unsettled for ever, with a timeout as without. At the listeners: a
    'timeout' event during the body wait changes nothing. *)
Theorem request_body_has_no_timeout
  (path : string) (options : IRequestOptions) (s : State)
  (arrival : Z) (h : IncomingHttpHeaders) (after : list Trailing) :
  streamOf rt s = {| answer := Some (arrival, AnswerHeaders h); trailing := after |} ->
  match armedTimer (timeout options) with
  | Some msecs => arrival < msecs
  | None => True
  end ->
  fst (request rt path options s) <> Rejected TimedOut
  /\ (forall chunks, after = map Chunk chunks ->
        fst (request rt path options s) = Unsettled None)
  /\ (forall events,
        _responseJson rt events
        = _responseJson rt
            (filter (fun ev => match ev with OnTimeout => false | _ => true end)
                    events)).
Proof.
  intros Hstream Hintime.
  rewrite (request_after_headers path options s arrival h after Hstream Hintime).
  split; [|split].
  - pose proof (bodyWait_never_times_out rt (map trailing_event after) []) as Hbody.
    unfold _responseJson. destruct (bodyWait rt [] _); congruence.
  - intros chunks ->. rewrite map_map. simpl.
    replace (map (fun x => OnData x) chunks)
      with (map OnData chunks ++ [])%list by apply app_nil_r.
    unfold _responseJson. now rewrite bodyWait_chunks.
  - intros events. unfold _responseJson.
    symmetry. apply bodyWait_ignores_timeout.
Qed.

(** The body is its bytes. Two servers that answer a request with the same
    headers and with bodies that are the same bytes, cut into chunks in any
    two ways and followed by anything after the end, give [request] the
    same outcome. *)
Theorem request_chunking
  (path : string) (options : IRequestOptions) (s : State)
  (f1 f2 : nat -> ServerStream) (arrival : Z) (h : IncomingHttpHeaders)
  (chunks1 chunks2 : list Buffer) (after1 after2 : list Trailing) :
  f1 (length (streams (_http2Client (this s))))
  = {| answer := Some (arrival, AnswerHeaders h);
       trailing := (map Chunk chunks1 ++ Finished :: after1)%list |} ->
  f2 (length (streams (_http2Client (this s))))
  = {| answer := Some (arrival, AnswerHeaders h);
       trailing := (map Chunk chunks2 ++ Finished :: after2)%list |} ->
  List.concat chunks1 = List.concat chunks2 ->
  match armedTimer (timeout options) with
  | Some msecs => arrival < msecs
  | None => True
  end ->
  fst (request (with_server rt f1) path options s)
  = fst (request (with_server rt f2) path options s).
Proof.
  intros Hf1 Hf2 Hbytes Hintime.
  rewrite !request_outcome. unfold streamOf. simpl server.
  rewrite (responseHeaders_in_time (with_server rt f1) _ (timeout options) arrival
             (AnswerHeaders h)) by (try rewrite Hf1; auto).
  rewrite (responseHeaders_in_time (with_server rt f2) _ (timeout options) arrival
             (AnswerHeaders h)) by (try rewrite Hf2; auto).
  rewrite !headerWait_answer, Hf1, Hf2. simpl trailing.
  rewrite !trailing_events_end, !responseJson_end.
  unfold Buffer_concat. rewrite Hbytes. reflexivity.
Qed.

End Streams.

Lemma request_stream_error_witness :
  fst (request Example.rt "/3/device/a1b2" (Example.withTimeout (Some 10))
         (Example.after_streams 3))
  = Rejected (StreamFailure "ECONNRESET").
Proof.
  destruct (request_stream_error Example.rt "/3/device/a1b2"
              (Example.withTimeout (Some 10)) (Example.after_streams 3) "ECONNRESET")
    as (Hfirst & _).
  apply (Hfirst 5 []); reflexivity.
Defined.

Lemma request_body_has_no_timeout_witness :
  fst (request (with_server Example.rt
                  (fun _ => {| answer := Some (5, AnswerHeaders [(":status", "200")]);
                               trailing := map Chunk [Example.bytes "{"] |}))
         "/3/device/a1b2" (Example.withTimeout (Some 10)) Example.start)
  = Unsettled None.
Proof.
  destruct (request_body_has_no_timeout
              (with_server Example.rt
                 (fun _ => {| answer := Some (5, AnswerHeaders [(":status", "200")]);
                              trailing := map Chunk [Example.bytes "{"] |}))
              "/3/device/a1b2" (Example.withTimeout (Some 10)) Example.start
              5 [(":status", "200")] _ eq_refl eq_refl) as (_ & Hpending & _).
  apply (Hpending [Example.bytes "{"]). reflexivity.
Defined.

Lemma request_chunking_witness :
  fst (request (with_server Example.rt (Example.sending [Example.bytes "[410]"]))
         "/3/device/a1b2" (Example.withTimeout None) Example.start)
  = fst (request (with_server Example.rt
                    (Example.sending [Example.bytes "["; Example.bytes "41";
                                      Example.bytes "0]"]))
           "/3/device/a1b2" (Example.withTimeout None) Example.start).
Proof.
  apply (request_chunking Example.rt "/3/device/a1b2" (Example.withTimeout None)
           Example.start _ _ 10 [(":status", "200")]
           [Example.bytes "[410]"]
           [Example.bytes "["; Example.bytes "41"; Example.bytes "0]"] [] []);
    reflexivity || exact I.
Defined.

(* ----------------------------------------------------------------- *)
(** ** What sends keep and what they share *)

Section Frame.

Variable rt : Runtime.

(** From [s] to [s'] the configuration is kept, at most [k] streams were
    opened and at most [k] calls of [sign] made, all appended, and the clock
    did not go back. *)
Let evolves (k : nat) (s s' : State) : Prop :=
  configuration (this s') = configuration (this s)
  /\ (exists opened,
        streams (_http2Client (this s'))
        = (streams (_http2Client (this s)) ++ opened)%list
        /\ (length opened <= k)%nat)
  /\ (exists calls,
        signed s' = (signed s ++ calls)%list /\ (length calls <= k)%nat)
  /\ (clock s <= clock s')%nat.

Lemma evolves_refl (s : State) : evolves 0 s s.
Proof.
  repeat split; auto.
  - exists []. split; [now rewrite app_nil_r | auto].
  - exists []. split; [now rewrite app_nil_r | auto].
Qed.

Lemma evolves_trans (j k : nat) (s1 s2 s3 : State) :
  evolves j s1 s2 -> evolves k s2 s3 -> evolves (j + k) s1 s3.
Proof.
  intros (Hc1 & (o1 & Ho1 & Hl1) & (c1 & Hs1 & Hn1) & Hk1)
         (Hc2 & (o2 & Ho2 & Hl2) & (c2 & Hs2 & Hn2) & Hk2).
  split; [congruence|]. split; [|split].
  - exists (o1 ++ o2)%list. rewrite Ho2, Ho1, <- app_assoc, length_app.
    split; [reflexivity | lia].
  - exists (c1 ++ c2)%list. rewrite Hs2, Hs1, <- app_assoc, length_app.
    split; [reflexivity | lia].
  - lia.
Qed.

Lemma evolves_more (j k : nat) (s s' : State) :
  (j <= k)%nat -> evolves j s s' -> evolves k s s'.
Proof.
  intros Hjk (Hc & (o & Ho & Hl) & (c & Hs & Hn) & Hk).
  split; [assumption|]. split; [|split].
  - exists o. split; [assumption | lia].
  - exists c. split; [assumption | lia].
  - assumption.
Qed.

Lemma getSigningToken_evolves (s : State) :
  configuration (this (snd (_getSigningToken rt s))) = configuration (this s)
  /\ streams (_http2Client (this (snd (_getSigningToken rt s))))
     = streams (_http2Client (this s))
  /\ (exists calls,
        signed (snd (_getSigningToken rt s)) = (signed s ++ calls)%list
        /\ (length calls <= 1)%nat)
  /\ (clock s <= clock (snd (_getSigningToken rt s)))%nat.
Proof.
  destruct (_token (this s)) as [tok|] eqn:Htok.
  - destruct (Z.lt_ge_cases (Date_now rt (clock s) - timestamp tok)
                RESET_TOKEN_INTERVAL_MS) as [Hyoung | Hold].
    + rewrite (getSigningToken_young rt s tok Htok Hyoung). simpl.
      repeat split; auto. exists []. split; [now rewrite app_nil_r | auto].
    + rewrite (getSigningToken_old rt s tok Htok Hold), signNewToken_run.
      destruct (sign rt _ _ _); simpl; repeat split; auto;
        eexists; split; reflexivity || auto.
  - rewrite (getSigningToken_absent rt s Htok), signNewToken_run.
    destruct (sign rt _ _ _); simpl; repeat split; auto;
      eexists; split; reflexivity || auto.
Qed.

Lemma buildHeaders_state (n : Notification) (s : State) :
  snd (_buildHeaders rt n s) = snd (_getSigningToken rt s).
Proof.
  unfold _buildHeaders, bind, get_this, ret.
  destruct (_getSigningToken rt s) as [[token|e] s1]; [|reflexivity].
  unfold _getPath. destruct (negb _); reflexivity.
Qed.

Lemma push_empty (n : Notification) (s : State) :
  Js.truthy_string (deviceToken n) = false ->
  _push rt n s = (Rejected (Error "Device token is required"), s).
Proof.
  intros Hfalsy. unfold _push, async, bind, _getPath.
  now rewrite Hfalsy.
Qed.

Lemma truthy_deviceToken (n : Notification) :
  Js.truthy_string (deviceToken n) = true -> deviceToken n <> "".
Proof.
  unfold Js.truthy_string. intros H Hempty. rewrite Hempty in H. discriminate.
Qed.

Lemma push_evolves (n : Notification) (s : State) :
  evolves 1 s (snd (_push rt n s)).
Proof.
  destruct (Js.truthy_string (deviceToken n)) eqn:Htruthy.
  - pose proof (truthy_deviceToken n Htruthy) as Hne.
    pose proof (buildHeaders_state n s) as Hstate.
    destruct (getSigningToken_evolves s) as (Hconf & Hstreams & Hsigned & Hclock).
    destruct (_buildHeaders rt n s) as [[h|e] s1] eqn:Hbuild; simpl in Hstate;
      subst s1.
    + rewrite (push_sends rt n s _ h Hbuild). unfold evolves. simpl.
      split; [exact Hconf|]. split; [|split; assumption].
      eexists. rewrite Hstreams. split; [reflexivity | auto].
    + rewrite (push_throws rt n s _ e Hne Hbuild). unfold evolves. simpl.
      split; [exact Hconf|]. split; [|split; assumption].
      exists []. rewrite Hstreams, app_nil_r. auto.
  - rewrite (push_empty n s Htruthy). simpl.
    apply (evolves_more 0 1); [lia | apply evolves_refl].
Qed.

Lemma Array_map_push_evolves (ns : list Notification) (s : State) :
  evolves (length ns) s (snd (Array_map (_push rt) ns s)).
Proof.
  revert s. induction ns as [|n ns IH]; intros s.
  - apply evolves_refl.
  - rewrite Array_map_cons. simpl snd.
    apply (evolves_trans 1 (length ns) s (snd (_push rt n s)));
      [apply push_evolves | apply IH].
Qed.

(** What a batch keeps. [sendMany] (and [send], a batch of one) never
    changes the team, the key id, the host, the signing key, the default
    topic, the listeners or the authority of the session; the streams and
    the calls of [sign] recorded before it stay, in order, and at most one
    of each is added per notification. *)
Theorem sendMany_keeps (ns : list Notification) (s : State) :
  configuration (this (snd (sendMany rt ns s))) = configuration (this s)
  /\ (exists opened,
        streams (_http2Client (this (snd (sendMany rt ns s))))
        = (streams (_http2Client (this s)) ++ opened)%list
        /\ (length opened <= length ns)%nat)
  /\ (exists calls,
        signed (snd (sendMany rt ns s)) = (signed s ++ calls)%list
        /\ (length calls <= length ns)%nat)
  /\ (clock s <= clock (snd (sendMany rt ns s)))%nat
  /\ (forall n, snd (send rt n s) = snd (sendMany rt [n] s)).
Proof.
  rewrite sendMany_run. simpl snd.
  destruct (Array_map_push_evolves ns s) as (Hconf & Hopened & Hcalls & Hclock).
  repeat split; try assumption.
  intros n. rewrite sendMany_run. unfold send. simpl.
  destruct (_push rt n s); reflexivity.
Qed.

(** A send while the cached token is young. *)
Lemma push_young (n : Notification) (s : State) (tok : SigningToken) :
  _token (this s) = Some tok ->
  Date_now rt (clock s) - timestamp tok < RESET_TOKEN_INTERVAL_MS ->
  Js.truthy_string (deviceToken n) = true ->
  exists stream,
    snd (_push rt n s)
    = {| this := with_stream (this s) stream; clock := S (clock s);
         signed := signed s |}
    /\ Js.obj_get "authorization" (sentHeaders stream)
       = Some (HString ("bearer " ++ value tok)).
Proof.
  intros Htok Hyoung Htruthy.
  pose proof (getSigningToken_young rt s tok Htok Hyoung) as Hget.
  destruct (buildHeaders_returns rt n s _ _ Hget (truthy_deviceToken n Htruthy))
    as (h & Hbuild).
  destruct (buildHeaders_shape rt n s _ h Hbuild)
    as (token & Hget' & _ & _ & Hauth & _).
  rewrite Hget in Hget'. injection Hget' as <-.
  eexists. split; [apply (push_sends rt n s _ h Hbuild) | exact Hauth].
Qed.

Lemma Array_map_push_young (tok : SigningToken) (ns : list Notification) (s : State) :
  _token (this s) = Some tok ->
  (forall k, (clock s <= k)%nat ->
             Date_now rt k - timestamp tok < RESET_TOKEN_INTERVAL_MS) ->
  _token (this (snd (Array_map (_push rt) ns s))) = Some tok
  /\ signed (snd (Array_map (_push rt) ns s)) = signed s
  /\ exists opened,
       streams (_http2Client (this (snd (Array_map (_push rt) ns s))))
       = (streams (_http2Client (this s)) ++ opened)%list
       /\ length opened = length (withDeviceToken ns)
       /\ Forall (fun stream =>
                    Js.obj_get "authorization" (sentHeaders stream)
                    = Some (HString ("bearer " ++ value tok))) opened.
Proof.
  revert s. induction ns as [|n ns IH]; intros s Htok Hyoung.
  - simpl. repeat split; auto. exists []. rewrite app_nil_r. auto.
  - rewrite Array_map_cons. simpl snd. unfold withDeviceToken. simpl filter.
    destruct (Js.truthy_string (deviceToken n)) eqn:Htruthy.
    + destruct (push_young n s tok Htok (Hyoung _ (Nat.le_refl _)) Htruthy)
        as (stream & Hstate & Hauth).
      rewrite Hstate.
      destruct (IH {| this := with_stream (this s) stream; clock := S (clock s);
                      signed := signed s |})
        as (Htok' & Hsigned & opened & Hstreams & Hlen & Hall).
      * simpl. exact Htok.
      * intros k Hk. simpl in Hk. apply Hyoung. lia.
      * split; [exact Htok'|]. split; [exact Hsigned|].
        exists (stream :: opened). rewrite Hstreams. simpl.
        rewrite <- app_assoc. simpl. repeat split; auto.
    + rewrite (push_empty n s Htruthy). simpl snd. now apply IH.
Qed.

(** One token for a batch. While every reading of the clock stays within
    the rotation interval of the cached token, [sendMany] never calls
    [sign] and leaves the token in the cache; it opens one stream for each
    notification that has a device token, and every one of these streams
    carries [authorization: bearer <that token>]. *)
Theorem sendMany_shares_token
  (tok : SigningToken) (ns : list Notification) (s : State) :
  _token (this s) = Some tok ->
  (forall k, (clock s <= k)%nat -> Date_now rt k - timestamp tok < 55 * 60 * 1000) ->
  _token (this (snd (sendMany rt ns s))) = Some tok
  /\ signed (snd (sendMany rt ns s)) = signed s
  /\ exists opened,
       streams (_http2Client (this (snd (sendMany rt ns s))))
       = (streams (_http2Client (this s)) ++ opened)%list
       /\ length opened = length (withDeviceToken ns)
       /\ Forall (fun stream =>
                    Js.obj_get "authorization" (sentHeaders stream)
                    = Some (HString ("bearer " ++ value tok))) opened.
Proof.
  intros Htok Hyoung. rewrite sendMany_run. simpl snd.
  now apply Array_map_push_young.
Qed.

End Frame.

Lemma sendMany_shares_token_witness :
  signed (snd (sendMany Example.frozen Example.batch (Example.holding "old" 0))) = []
  /\ exists opened,
       streams (_http2Client
                  (this (snd (sendMany Example.frozen Example.batch
                                (Example.holding "old" 0)))))
       = opened
       /\ length opened = 2%nat
       /\ Forall (fun stream =>
                    Js.obj_get "authorization" (sentHeaders stream)
                    = Some (HString "bearer old")) opened.
Proof.
  destruct (sendMany_shares_token Example.frozen
              {| value := "old"; timestamp := 0 |} Example.batch
              (Example.holding "old" 0) eq_refl)
    as (_ & Hsigned & opened & Hstreams & Hlength & Hall).
  - intros k _. reflexivity.
  - split; [exact Hsigned|]. exists opened. repeat split; assumption.
Defined.

(* ----------------------------------------------------------------- *)
(** ** Where a device token can point *)

Section PathReach.

Lemma normalize_absolute (p : string) :
  Path.isAbsolute p = true -> Path.isAbsolute (Path.normalize p) = true.
Proof.
  intros Habs. unfold Path.normalize.
  destruct p as [|c r]; [discriminate|]. simpl ((_ =? "")%string).
  rewrite Habs. cbv zeta. simpl negb.
  destruct (_ =? "")%string; [reflexivity|].
  destruct (Path.trailingSeparator _); reflexivity.
Qed.

(** The path of a device token is absolute, but the token is not confined
    to [/3/device]: [path.join] resolves its ['..'] segments, so the token
    [../../x] addresses [/x], for every plain segment [x]. *)
Theorem getPath_reach (t x : string) (s : State) :
  t <> "" ->
  x <> "" -> Path.has_sep x = false -> x <> "." -> x <> ".." ->
  (exists p, _getPath t s = (Return p, s) /\ Path.isAbsolute p = true)
  /\ _getPath ("../../" ++ x) s = (Return ("/" ++ x), s).
Proof.
  intros Ht Hne Hsep Hdot Hdots. split.
  - eexists. split; [apply (getPath_nonempty t s Ht)|].
    unfold Path.join. simpl filter.
    apply String.eqb_neq in Ht. rewrite Ht. simpl negb. cbv iota.
    now apply normalize_absolute.
  - rewrite getPath_nonempty by discriminate.
    assert (E0 : (x =? "")%string = false) by now apply String.eqb_neq.
    assert (E1 : (x =? ".")%string = false) by now apply String.eqb_neq.
    assert (E2 : (x =? "..")%string = false) by now apply String.eqb_neq.
    assert (Htr : Path.trailingSeparator ("/3/device/../../" ++ x) = false).
    { rewrite trailingSeparator_app by assumption.
      now apply trailingSeparator_no_sep. }
    do 2 f_equal.
    change (Path.join ["/3"; "device"; "../../" ++ x])
      with (Path.normalize ("/3/device/../../" ++ x)).
    unfold Path.normalize. rewrite Htr.
    change (("/3/device/../../" ++ x =? "")%string) with false.
    change (Path.isAbsolute ("/3/device/../../" ++ x)) with true.
    cbv iota zeta. simpl negb.
    unfold Path.normalizeString.
    replace (Path.segments ("/3/device/../../" ++ x))
      with [""; "3"; "device"; ".."; ".."; x]
      by (simpl; now rewrite (segments_no_sep x Hsep)).
    simpl Path.normalizeSegments. rewrite E0, E1, E2. simpl.
    rewrite E0. reflexivity.
Qed.

End PathReach.

Lemma getPath_reach_witness :
  _getPath "../../2/apps" Example.start = (Return "/2/apps", Example.start)
  /\ _getPath "../../health" Example.start = (Return "/health", Example.start).
Proof.
  split; [reflexivity|].
  assert (Ht : "a1b2" <> "") by discriminate.
  assert (Hx : "health" <> "") by discriminate.
  assert (Hdot : "health" <> ".") by discriminate.
  assert (Hdots : "health" <> "..") by discriminate.
  exact (proj2 (getPath_reach "a1b2" "health" Example.start Ht Hx eq_refl Hdot Hdots)).
Defined.

(* ----------------------------------------------------------------- *)
(** ** Events *)

Section Events.

Variable rt : Runtime.

(** The events of the client. On a client whose listeners are those of
    the constructor, only [Errors.expiredProviderToken] does anything:
    every other event leaves the state, and so the cached token, as it is.
    The expired-token event changes nothing but the cache, and a second one
    changes nothing more. *)
Theorem emit_events (o : ApnsOptions.t) (s : State) (name : string) :
  _emitter (this s) = _emitter (ApnsClient_new rt o) ->
  (name <> expiredProviderToken rt -> emit name s = (Return tt, s))
  /\ emit (expiredProviderToken rt) s
     = (Return tt,
        {| this := with_token (this s) None; clock := clock s; signed := signed s |})
  /\ configuration (this (snd (emit (expiredProviderToken rt) s)))
     = configuration (this s)
  /\ streams (_http2Client (this (snd (emit (expiredProviderToken rt) s))))
     = streams (_http2Client (this s))
  /\ emit (expiredProviderToken rt) (snd (emit (expiredProviderToken rt) s))
     = emit (expiredProviderToken rt) s.
Proof.
  intros Hemitter.
  assert (Hexpired : forall s0,
    _emitter (this s0) = _emitter (ApnsClient_new rt o) ->
    emit (expiredProviderToken rt) s0
    = (Return tt,
       {| this := with_token (this s0) None; clock := clock s0;
          signed := signed s0 |})).
  { intros s0 H0. rewrite emit_expiredProviderToken; [reflexivity|].
    rewrite H0. simpl. auto. }
  split; [|split; [|split; [|split]]].
  - intros Hother. unfold emit, bind, get_this.
    rewrite run_listeners_reset, Hemitter. simpl.
    apply not_eq_sym in Hother. apply String.eqb_neq in Hother.
    now rewrite Hother.
  - now apply Hexpired.
  - now rewrite Hexpired.
  - now rewrite Hexpired.
  - rewrite (Hexpired s Hemitter). simpl snd.
    rewrite Hexpired; [reflexivity | exact Hemitter].
Qed.

End Events.

Lemma emit_events_witness :
  emit "BadDeviceToken" (Example.holding "old" 2) = (Return tt, Example.holding "old" 2)
  /\ _token (this (snd (emit "ExpiredProviderToken" (Example.holding "old" 2)))) = None.
Proof.
  destruct (emit_events Example.rt Example.apnsOptions (Example.holding "old" 2)
              "BadDeviceToken" eq_refl) as (Hother & Hexpired & _).
  split.
  - apply Hother. discriminate.
  - change "ExpiredProviderToken" with (expiredProviderToken Example.rt).
    now rewrite Hexpired.
Defined.

(* ----------------------------------------------------------------- *)
(** ** A new client, and the empty body *)

Section NewClient.

Variable rt : Runtime.

(** The first send of a new client. A client made by the constructor is
    connected to [https://<host>], the host being the one given or
    [api.push.apple.com]; it holds no token, so its first send of a
    notification with a device token calls [sign], once, on the claims
    [{ iss: team, iat: floor(now / 1000) }] with the algorithm [ES256] and
    the key id as [kid]; when [sign] returns, the one stream opened carries
    [authorization: bearer <token>]. *)
Theorem new_client_first_send (o : ApnsOptions.t) (n : Notification) (k : nat) :
  deviceToken n <> "" ->
  let s0 := {| this := ApnsClient_new rt o; clock := k; signed := [] |} in
  let claims := {| iss := ApnsOptions.team o; iat := Date_now rt k / 1000 |} in
  let how := {| algorithm := "ES256";
                header := {| alg := "ES256"; kid := ApnsOptions.keyId o |} |} in
  authority (_http2Client (this (snd (send rt n s0))))
  = "https://" ++ match ApnsOptions.host o with
                  | Some h => h
                  | None => "api.push.apple.com"
                  end
  /\ signed (snd (send rt n s0)) = [claims]
  /\ (forall token,
         sign rt claims (ApnsOptions.signingKey o) how = Return token ->
         exists stream,
           streams (_http2Client (this (snd (send rt n s0)))) = [stream]
           /\ Js.obj_get "authorization" (sentHeaders stream)
              = Some (HString ("bearer " ++ token)))
  /\ (forall e,
         sign rt claims (ApnsOptions.signingKey o) how = Throw e ->
         fst (send rt n s0) = Rejected e
         /\ streams (_http2Client (this (snd (send rt n s0)))) = []).
Proof.
  intros Hne s0 claims how.
  assert (Hget : _getSigningToken rt s0 = signNewToken rt s0)
    by (apply getSigningToken_absent; reflexivity).
  rewrite signNewToken_run in Hget.
  change (claimsAt rt s0 (clock s0)) with claims in Hget.
  change (signingKey (this s0)) with (ApnsOptions.signingKey o) in Hget.
  change (signOptions (this s0)) with how in Hget.
  unfold send.
  destruct (sign rt claims (ApnsOptions.signingKey o) how) as [token|e] eqn:Hsign.
  - destruct (buildHeaders_returns rt n s0 _ _ Hget Hne) as (h & Hbuild).
    destruct (buildHeaders_shape rt n s0 _ h Hbuild)
      as (token' & Hget' & _ & _ & Hauth & _).
    rewrite Hget in Hget'. injection Hget' as <-.
    rewrite (push_sends rt n s0 _ h Hbuild). simpl.
    split; [reflexivity|]. split; [reflexivity|]. split.
    + intros token0 H0. injection H0 as <-.
      eexists. split; [reflexivity | exact Hauth].
    + intros e He. discriminate.
  - assert (Hbuild : _buildHeaders rt n s0 = (Throw e, snd (_getSigningToken rt s0))).
    { unfold _buildHeaders, bind. now rewrite Hget. }
    rewrite (push_throws rt n s0 _ e Hne Hbuild), Hget. simpl.
    split; [reflexivity|]. split; [reflexivity|]. split.
    + intros token H0. discriminate.
    + intros e0 H0. injection H0 as <-. split; reflexivity.
Qed.


End NewClient.

Lemma new_client_first_send_witness :
  signed (snd (send Example.rt (Example.notification "a1b2" None) Example.start))
  = [{| iss := "TEAM"; iat := 0 |}]
  /\ exists stream,
       streams (_http2Client
                  (this (snd (send Example.rt (Example.notification "a1b2" None)
                                Example.start))))
       = [stream]
       /\ Js.obj_get "authorization" (sentHeaders stream)
          = Some (HString "bearer KID.TEAM.0").
Proof.
  assert (Hne : deviceToken (Example.notification "a1b2" None) <> "") by discriminate.
  destruct (new_client_first_send Example.rt Example.apnsOptions
              (Example.notification "a1b2" None) 0 Hne)
    as (_ & Hsigned & Hstream & _).
  split; [exact Hsigned|].
  exact (Hstream "KID.TEAM.0" eq_refl).
Defined.

